(** * Shein stock monitor: a shallow embedding of [monitor.py]

    The development follows the layout of the Python module:

    - [Py]: the fragment of Python's dynamic values that the monitor
      manipulates (values decoded by [json.loads], [dict.get], [in],
      subscripting, truthiness, [str()], [str.strip]) together with the
      exceptions these operations raise;
    - [Parser]: [SheinMonitor._parse_product];
    - [Discovery]: [SheinMonitor.fetch_page] and
      [SheinMonitor.fetch_products_for_gender];
    - [Verifier]: [SheinMonitor.verify_stock];
    - [Loop]: the body of [SheinMonitor.run] (daily reset, merge of the
      discovery results, the verification loop and its state diffing);
    - [Spec]: the wording of the specification, as definitions to compare
      the code with;
    - [Scenario]: concrete listings, pages and stores on which the model
      is run.

    The properties follow, one module per component.

    Strings are Rocq strings holding the UTF-8 encoding of the Python
    text; where Python counts or classifies characters ([str.strip],
    slicing) the model works on code points.  JSON numbers are the
    integers ([json.loads] yields [int] for them); JSON floats are not part
    of the model.  Time, pauses and the retries inside
    [send_telegram_message] are not modelled in [Loop]: the local time of a
    cycle and the boolean returned by a send are inputs.  The requests
    behind that boolean are in [Notifier], the warm-up of the session in
    [Session], and the loop of [clean_state.py] in [CleanState]. *)

From stdpp Require Import gmap strings list fin_maps pretty.
From Stdlib Require Import ZArith Ascii Permutation Sorted.

Set Warnings "-register-all".

Local Open Scope string_scope.
Local Open Scope Z_scope.

(** ** Python values and exceptions *)

Module Py.

(** The exceptions raised by the operations below. *)
Inductive exn : Type :=
| AttributeError
| TypeError
| KeyError
| IndexError.

(** Outcome of a Python expression: a value, or a raised exception. *)
Inductive result (A : Type) : Type :=
| Ok (a : A)
| Raise (e : exn).
Arguments Ok {A} a.
Arguments Raise {A} e.

(** The exception monad, with stdpp's [x ← m; k] notation. *)
#[global] Instance result_ret : MRet result := fun A a => Ok a.
#[global] Instance result_bind : MBind result := fun A B k m =>
  match m with
  | Ok a => k a
  | Raise e => Raise e
  end.

(** What [json.loads] can produce (floats apart).  A [dict] keeps its
    insertion order; looking a key up finds its first binding. *)
Inductive value : Type :=
| VNone
| VBool (b : bool)
| VInt (z : Z)
| VStr (s : string)
| VList (l : list value)
| VDict (d : list (string * value)).

Fixpoint assoc {A} (k : string) (d : list (string * A)) : option A :=
  match d with
  | [] => None
  | (k', v) :: d' => if String.eqb k k' then Some v else assoc k d'
  end.

(** [bool(v)]: the truth value used by [if v] and [not v]. *)
Definition truthy (v : value) : bool :=
  match v with
  | VNone => false
  | VBool b => b
  | VInt z => negb (z =? 0)
  | VStr s => negb (String.eqb s "")
  | VList l => match l with [] => false | _ => true end
  | VDict d => match d with [] => false | _ => true end
  end.

(** [x.get(k)]: only a [dict] has the method. *)
Definition get (x : value) (k : string) : result (option value) :=
  match x with
  | VDict d => Ok (assoc k d)
  | _ => Raise AttributeError
  end.

(** [x.get(k, dflt)]. *)
Definition get_default (x : value) (k : string) (dflt : value) : result value :=
  o ← get x k; Ok (default dflt o).

(** [needle in hay] on two strings. *)
Fixpoint substring_of (needle hay : string) : bool :=
  String.prefix needle hay ||
  match hay with
  | EmptyString => false
  | String _ hay' => substring_of needle hay'
  end.

Definition is_str (s : string) (v : value) : bool :=
  match v with
  | VStr s' => String.eqb s' s
  | _ => false
  end.

(** [k in x] for a string [k]: key of a dict, element of a list, substring
    of a string; anything else is not a container. *)
Definition contains (k : string) (x : value) : result bool :=
  match x with
  | VDict d => Ok (bool_decide (is_Some (assoc k d)))
  | VList l => Ok (existsb (is_str k) l)
  | VStr s => Ok (substring_of k s)
  | _ => Raise TypeError
  end.

(** [x[k]] for a string [k]. *)
Definition getitem (x : value) (k : string) : result value :=
  match x with
  | VDict d => match assoc k d with Some v => Ok v | None => Raise KeyError end
  | _ => Raise TypeError
  end.

(** [outer in p and inner in p[outer]] *)
Definition has_nested (p : value) (outer inner : string) : result bool :=
  b ← contains outer p;
  if b : bool then x ← getitem p outer; contains inner x else Ok false.

(** [p[outer][inner]] *)
Definition get_nested (p : value) (outer inner : string) : result value :=
  x ← getitem p outer; getitem x inner.

(** A byte that continues a character (10xxxxxx); every other byte
    starts one. *)
Definition is_continuation (c : ascii) : bool :=
  let n := nat_of_ascii c in ((128 <=? n) && (n <? 192))%nat.

(** The number of characters of a text. *)
Fixpoint char_count (s : string) : nat :=
  match s with
  | EmptyString => O
  | String c s' => if is_continuation c then char_count s' else S (char_count s')
  end.

(** [s[:n]]: the first [n] characters of the text. *)
Fixpoint take_chars (n : nat) (s : string) : string :=
  match s with
  | EmptyString => EmptyString
  | String c s' =>
      if is_continuation c then String c (take_chars n s')
      else match n with
           | O => EmptyString
           | S n' => String c (take_chars n' s')
           end
  end.

(** The text goes on inside a character. *)
Definition starts_inside (s : string) : bool :=
  match s with
  | String c _ => is_continuation c
  | EmptyString => false
  end.

(** The characters of a text, in order: each byte that starts a
    character takes the continuation bytes that follow it. *)
Fixpoint split_chars (s : string) : list string :=
  match s with
  | EmptyString => []
  | String c s' =>
      match split_chars s' with
      | t :: rest =>
          if starts_inside s' then String c t :: rest
          else String c EmptyString :: t :: rest
      | [] => [String c EmptyString]
      end
  end.

(** [x[0]]. The keys of a decoded JSON object are strings, never [0]. *)
Definition getitem0 (x : value) : result value :=
  match x with
  | VList l => match l with v :: _ => Ok v | [] => Raise IndexError end
  | VStr s => match s with
              | String _ _ => Ok (VStr (take_chars 1 s))
              | EmptyString => Raise IndexError
              end
  | VDict _ => Raise KeyError
  | _ => Raise TypeError
  end.

(** [len(x)]. *)
Definition len (x : value) : result nat :=
  match x with
  | VList l => Ok (length l)
  | VStr s => Ok (char_count s)
  | VDict d => Ok (length d)
  | _ => Raise TypeError
  end.

Definition chars (s : string) : list value := map VStr (split_chars s).

(** [for v in x]: the sequence that the loop ranges over. *)
Definition iter (x : value) : result (list value) :=
  match x with
  | VList l => Ok l
  | VDict d => Ok (map (fun kv => VStr (fst kv)) d)
  | VStr s => Ok (chars s)
  | _ => Raise TypeError
  end.

(** [x > 0]; [bool] is a subclass of [int]. *)
Definition gt0 (x : value) : result bool :=
  match x with
  | VInt z => Ok (0 <? z)
  | VBool b => Ok b
  | _ => Raise TypeError
  end.

(** [is_hashable x]: can [x] be a dictionary key. *)
Definition hashable (x : value) : bool :=
  match x with
  | VList _ | VDict _ => false
  | _ => true
  end.

(** [a == b] on hashable values, as a dictionary compares its keys:
    [True == 1] and [False == 0]. *)
Definition as_int (x : value) : option Z :=
  match x with
  | VInt z => Some z
  | VBool b => Some (if b then 1 else 0)
  | _ => None
  end.

Definition key_eqb (a b : value) : bool :=
  match a, b with
  | VNone, VNone => true
  | VStr s, VStr t => String.eqb s t
  | _, _ => match as_int a, as_int b with
            | Some x, Some y => x =? y
            | _, _ => false
            end
  end.

(** Text is held as the bytes of its UTF-8 encoding, and a character is
    a code point.  The characters removed by [str.strip()] are those for
    which [str.isspace()] holds: U+0009..U+000D, U+001C..U+0020, U+0085,
    U+00A0, U+1680, U+2000..U+200A, U+2028, U+2029, U+202F, U+205F and
    U+3000, here each by the bytes of its encoding. *)
Definition utf8 (codes : list nat) : list ascii := map ascii_of_nat codes.

Definition WHITESPACE : list (list ascii) :=
  map utf8
    [[9]; [10]; [11]; [12]; [13]; [28]; [29]; [30]; [31]; [32];
     [194; 133]; [194; 160]; [225; 154; 128];
     [226; 128; 128]; [226; 128; 129]; [226; 128; 130]; [226; 128; 131];
     [226; 128; 132]; [226; 128; 133]; [226; 128; 134]; [226; 128; 135];
     [226; 128; 136]; [226; 128; 137]; [226; 128; 138];
     [226; 128; 168]; [226; 128; 169]; [226; 128; 175];
     [226; 129; 159]; [227; 128; 128]]%nat.

(** The bytes of [l] after its prefix [t], when it starts with [t]. *)
Fixpoint after (t l : list ascii) : option (list ascii) :=
  match t, l with
  | [], _ => Some l
  | a :: t', b :: l' => if Ascii.eqb a b then after t' l' else None
  | _ :: _, [] => None
  end.

(** The bytes after the first character, when that character is one of
    [spaces]. *)
Fixpoint skip_space (spaces : list (list ascii)) (l : list ascii)
  : option (list ascii) :=
  match spaces with
  | [] => None
  | t :: spaces' =>
      match after t l with
      | Some r => Some r
      | None => skip_space spaces' l
      end
  end.

(** [while the text starts with white space: drop that character]; there
    are no more turns than bytes. *)
Fixpoint skip_spaces (spaces : list (list ascii)) (turns : nat) (l : list ascii)
  : list ascii :=
  match turns with
  | O => l
  | S turns' =>
      match skip_space spaces l with
      | Some r => skip_spaces spaces turns' r
      | None => l
      end
  end.

Definition lstrip_bytes (l : list ascii) : list ascii :=
  skip_spaces WHITESPACE (length l) l.

(** At the end of the text: the same, on the bytes read backwards. *)
Definition rstrip_bytes (l : list ascii) : list ascii :=
  rev (skip_spaces (map (@rev ascii) WHITESPACE) (length l) (rev l)).

Definition lstrip (s : string) : string :=
  String.string_of_list_ascii (lstrip_bytes (String.list_ascii_of_string s)).

Definition rstrip (s : string) : string :=
  String.string_of_list_ascii (rstrip_bytes (String.list_ascii_of_string s)).

(** [s.strip()]. *)
Definition strip (s : string) : string := rstrip (lstrip s).

Section Str.

(** [repr] of a list or a dict, which [str()] falls back on for
    containers.  Its exact text plays no role below. *)
Variable repr_container : value → string.

(** [str(x)], also what an f-string field [{x}] prints. *)
Definition str (x : value) : string :=
  match x with
  | VNone => "None"
  | VBool b => if b then "True" else "False"
  | VInt z => pretty z
  | VStr s => s
  | _ => repr_container x
  end.

End Str.

(** [sep.join(l)]. *)
Fixpoint join (sep : string) (l : list string) : string :=
  match l with
  | [] => ""
  | [s] => s
  | s :: l' => s ++ sep ++ join sep l'
  end.

End Py.

(** ** The product parser: [SheinMonitor._parse_product] *)

Module Parser.
Import Py.

Definition SHEIN_BASE_URL : string := "https://www.sheinindia.in".

(** The dictionary stored for a product.  Its six keys are always present,
    so it is a record; the values copied from the listing entry keep
    whatever type the entry gave them. *)
Record Product : Type := mkProduct {
  code : value;
  name : value;
  price : value;
  image : value;
  url : string;
  category : string
}.

(** [products_dict]: a Python dict from identifiers to products, in
    insertion order. *)
Definition products : Type := list (value * Product).

(** [d[k] = v] for a hashable [k]: an equal key keeps its place (and the
    key object it was first inserted with), a new key goes last. *)
Fixpoint dict_set (k : value) (v : Product) (d : products) : products :=
  match d with
  | [] => [(k, v)]
  | (k', v') :: d' =>
      if key_eqb k' k then (k', v) :: d' else (k', v') :: dict_set k v d'
  end.

Definition setitem (k : value) (v : Product) (d : products) : result products :=
  if hashable k then Ok (dict_set k v d) else Raise TypeError.

(** The value of [mrp] after the price block. *)
Definition parse_mrp (p : value) : result value :=
  b ← has_nested p "retailPrice" "displayformattedValue";
  if b : bool then get_nested p "retailPrice" "displayformattedValue"
  else
    b' ← has_nested p "offerPrice" "displayformattedValue";
    if b' : bool then get_nested p "offerPrice" "displayformattedValue"
    else Ok (VStr "N/A").

(** The value of [image] after the image block. *)
Definition parse_image (p : value) : result value :=
  b ← has_nested p "fnlColorVariantData" "outfitPictureURL";
  if b : bool then get_nested p "fnlColorVariantData" "outfitPictureURL"
  else
    b' ← contains "images" p;
    if b' : bool then
      imgs ← getitem p "images";
      n ← len imgs;
      if (0 <? n)%nat then
        first ← getitem0 imgs;
        get_default first "url" (VStr "")
      else Ok (VStr "")
    else Ok (VStr "").

Section Parse.

Variable repr_container : value → string.

(** [SHEIN_BASE_URL + p.get('url', f"/p/{code}")]: [+] on a [str] accepts
    only a [str]. *)
Definition parse_url (p c : value) : result string :=
  u ← get_default p "url" (VStr ("/p/" ++ str repr_container c));
  match u with
  | VStr s => Ok (SHEIN_BASE_URL ++ s)
  | _ => Raise TypeError
  end.

(** [_parse_product(p, products_dict, gender)].  The Python mutates
    [products_dict]; the model returns the updated dictionary.  An
    exception leaves the dictionary as it was. *)
Definition _parse_product (p : value) (products_dict : products) (gender : string)
  : result products :=
  oc ← get p "code";
  let c := default VNone oc in
  if negb (truthy c) then Ok products_dict
  else
    mrp ← parse_mrp p;
    img ← parse_image p;
    nm ← get_default p "name" (VStr "Unknown Product");
    u ← parse_url p c;
    setitem c
      {| code := c; name := nm; price := mrp; image := img;
         url := u; category := gender |}
      products_dict.

End Parse.

End Parser.

(** ** Discovery: [fetch_page] and [fetch_products_for_gender] *)

Module Discovery.
Import Py Parser.

Definition MAX_RETRIES : nat := 3.

(** What one [self.session.get] on the category endpoint comes back with:
    a response with its status code and the outcome of [resp.json()]
    ([None] when decoding raises), or an exception of the HTTP client. *)
Inductive reply : Type :=
| Response (status_code : Z) (json : option value)
| NetworkError.

(** The loop of [fetch_page] over the attempts that are left: the first
    attempt answered with status 200 and a body that decodes returns the
    decoded body; every other outcome (403, another status, an exception,
    a body that does not decode) goes on to the next attempt after a
    pause; when no attempt is left the function returns [None]. *)
Fixpoint fetch_attempts (replies : nat → reply) (attempt left : nat) : value :=
  match left with
  | O => VNone
  | S left' =>
      let retry := fetch_attempts replies (S attempt) left' in
      match replies attempt with
      | Response status_code json =>
          if status_code =? 200 then
            match json with
            | Some data => data
            | None => retry
            end
          else retry
      | NetworkError => retry
      end
  end.

(** [x > 1] *)
Definition gt1 (x : value) : result bool :=
  match x with
  | VInt z => Ok (1 <? z)
  | VBool _ => Ok false
  | _ => Raise TypeError
  end.

(** [list(range(2, total_pages + 1))], reached only for an [int]. *)
Definition pages_to_fetch (total_pages : value) : list Z :=
  match total_pages with
  | VInt z => seqZ 2 (z - 1)
  | _ => []
  end.

Section Fetch.

Variable repr_container : value → string.

(** The category endpoint: for a filter and a page, the answer to each
    successive attempt. *)
Variable net : string → Z → nat → reply.

(** [as_completed]: the order in which the futures of the submitted pages
    complete. *)
Variable sched : list Z → list Z.

(** [fetch_page(page, gender)] *)
Definition fetch_page (page : Z) (gender : string) : value :=
  fetch_attempts (net gender page) 0 MAX_RETRIES.

(** [for p in entries: self._parse_product(p, products, gender)] *)
Fixpoint parse_entries (entries : list value) (products_dict : products)
    (gender : string) : result products :=
  match entries with
  | [] => Ok products_dict
  | p :: entries' =>
      d ← _parse_product repr_container p products_dict gender;
      parse_entries entries' d gender
  end.

(** The value of [total_pages] after reading the metadata of page 1. *)
Definition read_total_pages (first_page_data : value) : result value :=
  b ← contains "pagination" first_page_data;
  if b : bool then
    pg ← getitem first_page_data "pagination";
    get_default pg "totalPages" (VInt 1)
  else Ok (VInt 1).

(** Processing of page 1. *)
Definition process_first_page (first_page_data : value) (products_dict : products)
    (gender : string) : result products :=
  b ← contains "products" first_page_data;
  if b : bool then
    ps ← getitem first_page_data "products";
    entries ← iter ps;
    parse_entries entries products_dict gender
  else Ok products_dict.

(** Body of the [as_completed] loop for one page: a page that failed (or
    came back empty, or without products) is ignored. *)
Definition process_page (data : value) (products_dict : products)
    (gender : string) : result products :=
  if truthy data then
    b ← contains "products" data;
    if b : bool then
      ps ← getitem data "products";
      _ ← len ps;
      entries ← iter ps;
      parse_entries entries products_dict gender
    else Ok products_dict
  else Ok products_dict.

(** The [as_completed] loop over the pages in their completion order. *)
Fixpoint process_pages (pages : list Z) (products_dict : products)
    (gender : string) : result products :=
  match pages with
  | [] => Ok products_dict
  | page_num :: pages' =>
      d ← process_page (fetch_page page_num gender) products_dict gender;
      process_pages pages' d gender
  end.

(** [fetch_products_for_gender(gender)] *)
Definition fetch_products_for_gender (gender : string) : result products :=
  let first_page_data := fetch_page 1 gender in
  if negb (truthy first_page_data) then Ok []
  else
    total_pages ← read_total_pages first_page_data;
    d ← process_first_page first_page_data [] gender;
    more ← gt1 total_pages;
    if more : bool then
      process_pages (sched (pages_to_fetch total_pages)) d gender
    else Ok d.

End Fetch.

End Discovery.

(** ** The stock verifier: [SheinMonitor.verify_stock] *)

Module Verifier.
Import Py.

(** The double quote character and the text searched for by the fallback
    of a structure mismatch. *)
Definition dq : string := String "034"%char EmptyString.

Definition IN_STOCK_MARKER : string :=
  dq ++ "stockLevelStatus" ++ dq ++ ":" ++ dq ++ "inStock" ++ dq.

(** What [self.session.get(url, ...)] comes back with. *)
Inductive reply : Type :=
| Response (status_code : Z) (text : string)
| NetworkError.

(** The pair returned by [verify_stock]: the stock flag ([True], [False]
    or [None]) and the detail text. *)
Definition verdict : Type := option bool * string.

(** [q.get('qualifier') == 'size'] *)
Definition tagged_size (tag : option value) : bool :=
  match tag with
  | Some t => is_str "size" t
  | None => false
  end.

Section Verify.

Variable repr_container : value → string.

(** [for q in ...: if q.get('qualifier') == 'size': size_label =
    q.get('value'); break], starting from [size_label = "Unknown"]. *)
Fixpoint find_size (qualifiers : list value) : result value :=
  match qualifiers with
  | [] => Ok (VStr "Unknown")
  | q :: qualifiers' =>
      tag ← get q "qualifier";
      if tagged_size tag then
        v ← get q "value";
        Ok (default VNone v)
      else find_size qualifiers'
  end.

(** One turn of the loop over the variants: the text appended to
    [in_stock_sizes], if any. *)
Definition variant_entry (v : value) : result (option string) :=
  stock ← get_default v "stock" (VDict []);
  qty ← get_default stock "stockLevel" (VInt 0);
  stock' ← get_default v "stock" (VDict []);
  status ← get_default stock' "stockLevelStatus" (VStr "outOfStock");
  quals ← get_default v "variantOptionQualifiers" (VList []);
  qs ← iter quals;
  size_label ← find_size qs;
  positive ← gt0 qty;
  if positive : bool then
    Ok (Some (str repr_container size_label ++ " (" ++ str repr_container qty ++ ")"))
  else if is_str "inStock" status then
    Ok (Some (str repr_container size_label ++ " (In Stock)"))
  else Ok None.

(** The loop over the variants: the final [in_stock_sizes]. *)
Fixpoint collect_sizes (variants : list value) : result (list string) :=
  match variants with
  | [] => Ok []
  | v :: variants' =>
      e ← variant_entry v;
      rest ← collect_sizes variants';
      Ok (match e with Some s => s :: rest | None => rest end)
  end.

(** The body of the inner [try], once [json.loads] has returned [state]:
    an exception raised here is not a [JSONDecodeError] and reaches the
    outer handler. *)
Definition inspect_state (state : value) (text : string) : result verdict :=
  b ← has_nested state "product" "productDetails";
  if b : bool then
    details ← get_nested state "product" "productDetails";
    variants ← get_default details "variantOptions" (VList []);
    vs ← iter variants;
    in_stock_sizes ← collect_sizes vs;
    match in_stock_sizes with
    | [] => Ok (Some false, "Out of Stock")
    | _ => Ok (Some true, join ", " in_stock_sizes)
    end
  else if substring_of IN_STOCK_MARKER text then
    Ok (Some false, "Structure Mismatch (OOS Safety)")
  else Ok (Some false, "Structure Mismatch").

(** [f"{SHEIN_BASE_URL}/p/{product_code}"] *)
Definition detail_url (product_code : value) : string :=
  Parser.SHEIN_BASE_URL ++ "/p/" ++ str repr_container product_code.

(** The detail page served for a URL. *)
Variable http_get : string → reply.

(** [re.search(r'window\.__PRELOADED_STATE__\s*=\s*(\{.*?\});', text,
    re.DOTALL)]: the captured group, if the pattern is found. *)
Variable search_state : string → option string.

(** [json.loads]: [None] stands for a [JSONDecodeError]. *)
Variable json_loads : string → option value.

(** [verify_stock(product_code)] *)
Definition verify_stock (product_code : value) : verdict :=
  let url := detail_url product_code in
  match http_get url with
  | NetworkError => (Some false, "Error")
  | Response status_code text =>
      if status_code =? 200 then
        match search_state text with
        | Some blob =>
            match json_loads blob with
            | Some state =>
                match inspect_state state text with
                | Ok r => r
                | Raise _ => (Some false, "Error")
                end
            | None => (Some false, "No Data")
            end
        | None => (Some false, "No Data")
        end
      else if status_code =? 403 then (None, "403")
      else (Some false, "HTTP " ++ pretty status_code)
  end.

End Verify.

End Verifier.

(** ** The control loop: [SheinMonitor.run] *)

Module Loop.
Import Py Parser.

Definition MONITORED_GENDERS : list string := ["Men"; "Women"].

(** A value of [self.stock_state].  The state file is written by
    [save_state] only, and the loop stores [{'in_stock': True, 'details':
    ...}] or [{'in_stock': False}]. *)
Record StockRecord : Type := mkRecord {
  in_stock : bool;
  details : option string
}.

(** What the monitor does to the outside world, in order:
    - [Sent about text photo_url gender delivered]: a call of
      [send_telegram_message(text, photo_url, gender=gender)] and the
      boolean it returned; [about] names the identifier an alert is for
      ([None] for an announcement);
    - [Saved about snapshot]: a call of [save_state], with the mapping it
      dumps; [about] names the identifier whose record was just written
      ([None] after the daily reset);
    - [DailyReset date]: the daily reset block is entered (its log line
      "7 AM Detected"), in a cycle that started on the local date [date]. *)
Inductive event : Type :=
| Sent (about : option string) (text : string) (photo_url : value)
       (gender : option string) (delivered : bool)
| Saved (about : option string) (snapshot : gmap string StockRecord)
| DailyReset (date : Z).

(** The part of the monitor that [run] reads and writes: the state store,
    the local [last_reset_date], and the events so far. *)
Record Monitor : Type := mkMonitor {
  stock_state : gmap string StockRecord;
  last_reset_date : option Z;
  trace : list event
}.

(** How a sequence of cycles ends: the loop is still going, or an
    exception left [run]. *)
Inductive outcome : Type :=
| Finished (m : Monitor)
| Crashed (m : Monitor) (e : exn).

(** The monitor as the cycles left it. *)
Definition monitor_of (o : outcome) : Monitor :=
  match o with
  | Finished m | Crashed m _ => m
  end.

(** [str.replace] of one character by a text. *)
Fixpoint replace_char (c : ascii) (by_text : string) (s : string) : string :=
  match s with
  | EmptyString => EmptyString
  | String c' s' =>
      if Ascii.eqb c' c then by_text ++ replace_char c by_text s'
      else String c' (replace_char c by_text s')
  end.

(** [escape_html(text)], on the text [str(text)]. *)
Definition escape_html (text : string) : string :=
  replace_char ">" "&gt;" (replace_char "<" "&lt;" (replace_char "&" "&amp;" text)).

Definition nl : string := String "010"%char EmptyString.

Definition GOOD_MORNING : string :=
  "🌅 <b>Good Morning!</b>" ++ nl ++
  "Starting daily stock check... You will receive alerts for ALL in-stock items now.".

Section Run.

Variable repr_container : value → string.

(** [re.search] for the preloaded state and [json.loads], as in
    [Verifier]. *)
Variable search_state : string → option string.
Variable json_loads : string → option value.

(** The Telegram side: the boolean that [send_telegram_message] returns
    for a call, given everything that happened before it. *)
Variable telegram : list event → string → value → option string → bool.

(** [save_state()] *)
Definition save_state (about : option string) (m : Monitor) : Monitor :=
  {| stock_state := stock_state m;
     last_reset_date := last_reset_date m;
     trace := trace m ++ [Saved about (stock_state m)] |}.

(** [send_telegram_message(text, photo_url, gender=gender)] *)
Definition send_telegram_message (about : option string) (text : string)
    (photo_url : value) (gender : option string) (m : Monitor) : bool * Monitor :=
  let delivered := telegram (trace m) text photo_url gender in
  (delivered,
   {| stock_state := stock_state m;
      last_reset_date := last_reset_date m;
      trace := trace m ++ [Sent about text photo_url gender delivered] |}).

(** [self.stock_state[code] = record] *)
Definition set_record (code : string) (r : StockRecord) (m : Monitor) : Monitor :=
  {| stock_state := <[code := r]> (stock_state m);
     last_reset_date := last_reset_date m;
     trace := trace m |}.

(** The test of the daily reset: [now_ist.hour == 7 and now_ist.date() !=
    last_reset_date]. *)
Definition reset_due (date hour : Z) (m : Monitor) : bool :=
  (hour =? 7) && negb (bool_decide (last_reset_date m = Some date)).

(** The daily reset block at the head of every cycle. *)
Definition daily_reset (date hour : Z) (m : Monitor) : Monitor :=
  if reset_due date hour m then
    let m0 := {| stock_state := stock_state m;
                 last_reset_date := last_reset_date m;
                 trace := trace m ++ [DailyReset date] |} in
    let m1 := (send_telegram_message None GOOD_MORNING VNone None m0).2 in
    let m2 := (send_telegram_message None GOOD_MORNING VNone (Some "Women") m1).2 in
    let m3 := save_state None
                         {| stock_state := ∅;
                            last_reset_date := last_reset_date m2;
                            trace := trace m2 |} in
    {| stock_state := stock_state m3;
       last_reset_date := Some date;
       trace := trace m3 |}
  else m.

(** [str(k).strip()] *)
Definition clean (k : value) : string := strip (str repr_container k).

(** [for k, v in prods.items(): all_found_products[str(k).strip()] = v] *)
Definition merge_products (prods : products) (all_found_products : gmap string Product)
  : gmap string Product :=
  foldl (fun acc kv => <[clean kv.1 := kv.2]> acc) all_found_products prods.

(** The text of an alert. *)
Definition alert_message (product : Product) (stock_details : string) : string :=
  let safe_name := escape_html (str repr_container (name product)) in
  let safe_mrp := escape_html (str repr_container (price product)) in
  let safe_sizes := escape_html stock_details in
  "🎉 <b>IN STOCK</b>" ++ nl ++ nl ++
  "📦 <b>" ++ safe_name ++ "</b>" ++ nl ++
  "💰 MRP: " ++ safe_mrp ++ nl ++
  "📏 Sizes: " ++ safe_sizes ++ nl ++
  "🔗 <a href='" ++ url product ++ "'>" ++ url product ++ "</a>".

(** [self.stock_state.get(code, {}).get('in_stock', False)] *)
Definition prev_state (code : string) (m : Monitor) : bool :=
  match stock_state m !! code with
  | Some r => in_stock r
  | None => false
  end.

(** The body of the [try] for one completed verification.  Nothing in it
    raises. *)
Definition handle_result (product : Product) (code : string)
    (v : Verifier.verdict) (m : Monitor) : Monitor :=
  match v.1 with
  | None => m
  | Some is_in_stock =>
      if is_in_stock then
        if negb (prev_state code m) then
          let msg := alert_message product v.2 in
          let '(delivered, m1) :=
            send_telegram_message (Some code) msg (image product)
              (Some (category product)) m in
          if delivered then
            save_state (Some code)
              (set_record code {| in_stock := true; details := Some v.2 |} m1)
          else m1
        else m
      else
        if prev_state code m then
          save_state (Some code)
            (set_record code {| in_stock := false; details := None |} m)
        else m
  end.

(** [all_found_products[raw_code]]: the mapping has string keys. *)
Definition lookup_product (all_found_products : gmap string Product)
    (raw_code : value) : result Product :=
  if hashable raw_code then
    match raw_code with
    | VStr s =>
        match all_found_products !! s with
        | Some p => Ok p
        | None => Raise KeyError
        end
    | _ => Raise KeyError
    end
  else Raise TypeError.

(** A completed future: the identifier it was submitted with and the
    result of [verify_stock]. *)
Definition future : Type := value * Verifier.verdict.

(** The [as_completed] loop of the verification phase. *)
Fixpoint verification_loop (all_found_products : gmap string Product)
    (futures : list future) (processed_codes_this_cycle : gset string)
    (m : Monitor) : outcome :=
  match futures with
  | [] => Finished m
  | (raw_code, v) :: futures' =>
      let code := clean raw_code in
      if decide (code ∈ processed_codes_this_cycle) then
        verification_loop all_found_products futures' processed_codes_this_cycle m
      else
        match lookup_product all_found_products raw_code with
        | Raise e => Crashed m e
        | Ok product =>
            verification_loop all_found_products futures'
              ({[code]} ∪ processed_codes_this_cycle)
              (handle_result product code v m)
        end
  end.

(** What a cycle meets: the local time in Asia/Kolkata when it starts (as
    a day number and an hour), the category endpoint, the completion order
    of the page fetches, the detail pages, and the completion order of the
    verifications. *)
Record World : Type := mkWorld {
  now_date : Z;
  now_hour : Z;
  net : string → Z → nat → Discovery.reply;
  page_order : list Z → list Z;
  http_get : string → Verifier.reply;
  completion_order : list future → list future
}.

(** The discovery phase: both filters in turn, merged under trimmed
    identifiers. *)
Fixpoint discover (w : World) (genders : list string)
    (all_found_products : gmap string Product) : result (gmap string Product) :=
  match genders with
  | [] => Ok all_found_products
  | gender :: genders' =>
      prods ← Discovery.fetch_products_for_gender repr_container (net w)
                (page_order w) gender;
      discover w genders' (merge_products prods all_found_products)
  end.

(** The futures submitted for the products found, with their results. *)
Definition submit_all (w : World) (all_found_products : gmap string Product)
  : list future :=
  map (fun kp : string * Product =>
         (code kp.2,
          Verifier.verify_stock repr_container (http_get w) search_state
            json_loads (code kp.2)))
      (map_to_list all_found_products).

(** One turn of [while self.running]. *)
Definition cycle (w : World) (m : Monitor) : outcome :=
  let m := daily_reset (now_date w) (now_hour w) m in
  match discover w MONITORED_GENDERS ∅ with
  | Raise e => Crashed m e
  | Ok all_found_products =>
      if decide (all_found_products = ∅) then Finished m
      else
        verification_loop all_found_products
          (completion_order w (submit_all w all_found_products)) ∅ m
  end.

(** The cycles of [run], one per world met, until an exception leaves the
    loop. *)
Fixpoint cycles (ws : list World) (m : Monitor) : outcome :=
  match ws with
  | [] => Finished m
  | w :: ws' =>
      match cycle w m with
      | Finished m' => cycles ws' m'
      | Crashed m' e => Crashed m' e
      end
  end.

(** [run()]: the two start messages, then the cycles with
    [last_reset_date = None]. *)
Definition run (loaded : gmap string StockRecord) (ws : list World) : outcome :=
  let m0 := {| stock_state := loaded; last_reset_date := None; trace := [] |} in
  let m1 := (send_telegram_message None
               "🚀 Monitor Started (Optimized + HTML) - Men Channel" VNone None m0).2 in
  let m2 := (send_telegram_message None
               "🚀 Monitor Started (Optimized + HTML) - Women Channel" VNone
               (Some "Women") m1).2 in
  cycles ws m2.

End Run.

End Loop.

(** ** The notifier: [SheinMonitor.send_telegram_message] *)

Module Notifier.
Import Py.

Local Open Scope list_scope.

(** The two destinations, each a bot token with its chat. *)
Inductive channel : Type :=
| MenChannel
| WomenChannel.

(** [if gender == "Women": ... else: ...] *)
Definition pick_channel (gender : option string) : channel :=
  match gender with
  | Some g => if String.eqb g "Women" then WomenChannel else MenChannel
  | None => MenChannel
  end.

(** A POST to the Telegram API: [sendPhoto] with its photo and caption,
    or [sendMessage] with its text. *)
Inductive request : Type :=
| SendPhoto (to : channel) (photo : value) (caption : string)
| SendMessage (to : channel) (text : string).

(** What [standard_requests.post] comes back with: a response with its
    status code, a [ReadTimeout], or another exception.  (An exception
    raised while handling a 429, by [int] or [time.sleep], reaches the
    same handler as one raised by the POST; both go on to the next
    attempt, like a 429 that is handled.) *)
Inductive reply : Type :=
| Status (status_code : Z)
| ReadTimeout
| Failure.

(** [text[:1024]] *)
Definition caption_of (text : string) : string := take_chars 1024 text.

Section Send.

(** The Telegram API: the reply to a request, given how many requests
    this call has made before it. *)
Variable post : nat → request → reply.

(** The loop of a call without photo, over the attempts that are left;
    [made] holds the requests made so far.  Such a call never falls back:
    [photo_url and attempt == 0] is false. *)
Fixpoint text_attempts (to : channel) (text : string) (made : list request)
    (left : nat) : bool * list request :=
  match left with
  | O => (false, made)
  | S left' =>
      let req := SendMessage to text in
      match post (length made) req with
      | Status status_code =>
          if status_code =? 200 then (true, made ++ [req])
          else text_attempts to text (made ++ [req]) left'
      | ReadTimeout => (true, made ++ [req])
      | Failure => text_attempts to text (made ++ [req]) left'
      end
  end.

(** The loop of a call with a photo.  A status other than 200 and 429 at
    the first attempt returns what the call without photo returns. *)
Fixpoint photo_attempts (to : channel) (text : string) (photo_url : value)
    (made : list request) (attempt left : nat) : bool * list request :=
  match left with
  | O => (false, made)
  | S left' =>
      let req := SendPhoto to photo_url (caption_of text) in
      match post (length made) req with
      | Status status_code =>
          if status_code =? 200 then (true, made ++ [req])
          else if status_code =? 429 then
            photo_attempts to text photo_url (made ++ [req]) (S attempt) left'
          else if (attempt =? 0)%nat then
            text_attempts to text (made ++ [req]) 3
          else photo_attempts to text photo_url (made ++ [req]) (S attempt) left'
      | ReadTimeout => (true, made ++ [req])
      | Failure =>
          photo_attempts to text photo_url (made ++ [req]) (S attempt) left'
      end
  end.

(** [send_telegram_message(text, photo_url, gender)]: the boolean
    returned and the requests made, in order. *)
Definition send_telegram_message (text : string) (photo_url : value)
    (gender : option string) : bool * list request :=
  let to := pick_channel gender in
  if truthy photo_url then photo_attempts to text photo_url [] 0 3
  else text_attempts to text [] 3.

End Send.

End Notifier.

(** ** The session: [SheinMonitor.init_session] *)

Module Session.

Definition max_attempts : nat := 10.

(** The warm-up request to the site root: a status code, or an
    exception. *)
Inductive reply : Type :=
| Status (status_code : Z)
| Failure.

(** The two browser profiles of [random.choice]. *)
Inductive impersonation : Type :=
| chrome110
| safari15_3.

(** After [init_session]: the profile the session impersonates (set at
    every attempt, [None] before the first), whether the warm-up got a
    200, and the number of attempts made. *)
Record session : Type := mkSession {
  profile : option impersonation;
  warmed_up : bool;
  attempts_made : nat
}.

Section Init.

(** The profile drawn and the reply received at each attempt. *)
Variable choice : nat → impersonation.
Variable get_root : nat → impersonation → reply.

Fixpoint init_attempts (current : option impersonation) (attempt left : nat)
  : session :=
  match left with
  | O => {| profile := current; warmed_up := false; attempts_made := attempt |}
  | S left' =>
      let chosen := choice attempt in
      match get_root attempt chosen with
      | Status status_code =>
          if status_code =? 200 then
            {| profile := Some chosen; warmed_up := true;
               attempts_made := S attempt |}
          else init_attempts (Some chosen) (S attempt) left'
      | Failure => init_attempts (Some chosen) (S attempt) left'
      end
  end.

(** [init_session()] *)
Definition init_session : session := init_attempts None 0 max_attempts.

End Init.

End Session.

(** ** The maintenance script: [clean_state.py] *)

Module CleanState.
Import Py.

(** [d[k] = v] on a dict with text keys: a key already there keeps its
    place, a new key goes last. *)
Fixpoint setitem (k : string) (v : value) (d : list (string * value))
  : list (string * value) :=
  match d with
  | [] => [(k, v)]
  | (k', v') :: d' =>
      if String.eqb k' k then (k', v) :: d' else (k', v') :: setitem k v d'
  end.

(** [for k, v in data.items(): new_data[str(k).strip()] = v], from
    [new_data]. *)
Definition clean_items (data new_data : list (string * value))
  : list (string * value) :=
  foldl (fun acc kv => setitem (strip kv.1) kv.2 acc) new_data data.

(** What [clean_state()] dumps for the value that [json.load] returned;
    a value that is no dict has no [items]. *)
Definition clean_state (data : value) : result value :=
  match data with
  | VDict d => Ok (VDict (clean_items d []))
  | _ => Raise AttributeError
  end.

End CleanState.

(** ** The specification's wording, for comparison with the code *)

Module Spec.
Import Py Parser.

(** The display field of a price entry: the entry [outer] is an object
    that has a ["displayformattedValue"]. *)
Definition display_field (fields : list (string * value)) (outer : string)
  : option value :=
  match assoc outer fields with
  | Some (VDict x) => assoc "displayformattedValue" x
  | _ => None
  end.

(** "price: prefer a retail price display field; fall back to an offer
    price display field; else N/A". *)
Definition listed_price (fields : list (string * value)) : value :=
  match display_field fields "retailPrice" with
  | Some v => v
  | None =>
      match display_field fields "offerPrice" with
      | Some v => v
      | None => VStr "N/A"
      end
  end.

(** "name: fall back to a literal Unknown Product placeholder if
    missing". *)
Definition listed_name (fields : list (string * value)) : value :=
  default (VStr "Unknown Product") (assoc "name" fields).

(** A listing entry whose fields have the JSON types the parser expects:
    the price and colour entries are objects, the images are an array of
    objects, the link is a text, the identifier can be hashed.  Any of
    them may be missing. *)
Definition object_or_missing (o : option value) : bool :=
  match o with
  | None | Some (VDict _) => true
  | _ => false
  end.

Definition well_formed_entry (fields : list (string * value)) : bool :=
  object_or_missing (assoc "retailPrice" fields) &&
  object_or_missing (assoc "offerPrice" fields) &&
  object_or_missing (assoc "fnlColorVariantData" fields) &&
  match assoc "images" fields with
  | None | Some (VList []) | Some (VList (VDict _ :: _)) => true
  | _ => false
  end &&
  match assoc "url" fields with
  | None | Some (VStr _) => true
  | _ => false
  end &&
  hashable (default VNone (assoc "code" fields)).

(** A record of the mapping carries an identifier. *)
Definition identified (kr : value * Product) : Prop :=
  truthy (code kr.2) = true.

(** A record is stored under a key equal to its own identifier, which
    can be hashed. *)
Definition keyed (kr : value * Product) : Prop :=
  hashable (code kr.2) = true ∧ key_eqb kr.1 (code kr.2) = true.

(** "A page fails after exhausting retries": none of the [MAX_RETRIES]
    attempts is answered with status 200 and a body that decodes. *)
Definition usable (r : Discovery.reply) : bool :=
  match r with
  | Discovery.Response status_code (Some _) => status_code =? 200
  | _ => false
  end.

Definition exhausted (replies : nat → Discovery.reply) : bool :=
  forallb (fun i => negb (usable (replies i))) (seq 0 Discovery.MAX_RETRIES).





(** The path [product.productDetails] of the preloaded state. *)
Definition product_details (state : value) : option value :=
  match state with
  | VDict d =>
      match assoc "product" d with
      | Some (VDict p) => assoc "productDetails" p
      | _ => None
      end
  | _ => None
  end.

(** A value that is no container: null, a boolean or a number.  Both
    [k in x] and [x[k]] raise on it. *)
Definition scalar (x : value) : bool :=
  match x with
  | VNone | VBool _ | VInt _ => true
  | _ => false
  end.

(** The name [k] occurs in a text (as a part of it) or in an array (as
    one of its elements): [k in x] holds there, and [x[k]] raises. *)
Definition mentions (k : string) (x : value) : bool :=
  match x with
  | VStr s => substring_of k s
  | VList l => existsb (is_str k) l
  | _ => false
  end.

(** Testing the path raises: the value tested, which is the ["product"]
    entry of the state, or the state itself when it is no object, is a
    scalar, or is a text or an array in which the name looked up
    occurs. *)
Definition path_test_raises (state : value) : bool :=
  match state with
  | VDict d =>
      match assoc "product" d with
      | None => false
      | Some x => scalar x || mentions "productDetails" x
      end
  | _ => scalar state || mentions "product" state
  end.

(** The reason given for a structure mismatch. *)
Definition mismatch_reason (text : string) : string :=
  if substring_of Verifier.IN_STOCK_MARKER text
  then "Structure Mismatch (OOS Safety)"
  else "Structure Mismatch".

(** A variant record as the specification reads it: its stock quantity,
    its status flag, and its qualifiers (tag and value, either of which
    may be missing). *)
Record Qualifier : Type := mkQualifier {
  tag : option value;
  label : option value
}.

Record Variant : Type := mkVariant {
  quantity : Z;
  status : value;
  qualifiers : list Qualifier
}.

Definition decode_qualifier (q : value) : option Qualifier :=
  match q with
  | VDict d => Some {| tag := assoc "qualifier" d; label := assoc "value" d |}
  | _ => None
  end.

Definition decode_variant (v : value) : option Variant :=
  match v with
  | VDict d =>
      match default (VDict []) (assoc "stock" d),
            default (VList []) (assoc "variantOptionQualifiers" d) with
      | VDict stock, VList quals =>
          match default (VInt 0) (assoc "stockLevel" stock) with
          | VInt qty =>
              qs ← mapM decode_qualifier quals;
              Some {| quantity := qty;
                      status := default (VStr "outOfStock")
                                  (assoc "stockLevelStatus" stock);
                      qualifiers := qs |}
          | _ => None
          end
      | _, _ => None
      end
  | _ => None
  end.

(** The variants of a page that parses: the path is present and every
    variant record reads as above. *)
Definition decode_page (state : value) : option (list Variant) :=
  details ← product_details state;
  match details with
  | VDict d =>
      match default (VList []) (assoc "variantOptions" d) with
      | VList vs => mapM decode_variant vs
      | _ => None
      end
  | _ => None
  end.

Section Verdict.

Variable repr_container : value → string.

(** "size label from a qualifier list entry tagged size (first match;
    Unknown if absent)". *)
Definition size_label (w : Variant) : value :=
  match find (fun q => Verifier.tagged_size (tag q)) (qualifiers w) with
  | Some q => default VNone (label q)
  | None => VStr "Unknown"
  end.

(** "counted as in-stock if its quantity is greater than zero OR its
    status flag equals inStock". *)
Definition counted (w : Variant) : bool :=
  (0 <? quantity w) || is_str "inStock" (status w).

(** "{size} ({quantity}) when quantity > 0, else {size} (In Stock)". *)
Definition detail (w : Variant) : string :=
  if 0 <? quantity w
  then str repr_container (size_label w) ++ " (" ++ pretty (quantity w) ++ ")"
  else str repr_container (size_label w) ++ " (In Stock)".

(** "in-stock (true) with a comma-joined detail string if any variant
    qualifies; otherwise not-in-stock with reason Out of Stock". *)
Definition aggregate (ws : list Variant) : Verifier.verdict :=
  if existsb counted ws
  then (Some true, join ", " (map detail (filter (fun w => counted w = true) ws)))
  else (Some false, "Out of Stock").

End Verdict.

(** An alert sent for the identifier [c]. *)
Definition alert_for (c : string) (e : Loop.event) : bool :=
  match e with
  | Loop.Sent (Some c') _ _ _ _ => String.eqb c' c
  | _ => false
  end.

(** A write of the record of the identifier [c]. *)
Definition update_of (c : string) (e : Loop.event) : bool :=
  match e with
  | Loop.Saved (Some c') _ => String.eqb c' c
  | _ => false
  end.

(** No event of [t] is an alert for, or a write of, the identifier [c]. *)
Definition silent_on (c : string) (t : list Loop.event) : Prop :=
  Forall (fun e => alert_for c e = false ∧ update_of c e = false) t.

(** The local dates on which the daily reset ran. *)
Fixpoint resets (t : list Loop.event) : list Z :=
  match t with
  | [] => []
  | Loop.DailyReset date :: t' => date :: resets t'
  | _ :: t' => resets t'
  end.

(** The merged mapping is keyed by trimmed texts, and a record whose
    identifier is a text sits under the trimmed identifier. *)
Definition trimmed_keys (all_found : gmap string Product) : Prop :=
  map_Forall (fun k p => strip k = k ∧ hashable (code p) = true ∧
                         ∀ s, code p = VStr s → k = strip s) all_found.

End Spec.

(** ** Concrete inputs, used to run the model *)

Module Scenario.
Import Py Parser.

Definition no_repr : value → string := fun _ => "".

Definition listing (codes : list string) : value :=
  VDict [("products", VList (map (fun c => VDict [("code", VStr c)]) codes))].


(** A detail page that embeds the JSON text [blob], the search that finds
    the text in that page, and a decoder that knows its value. *)
Definition q (s : string) : string := Verifier.dq ++ s ++ Verifier.dq.

Definition page_of (blob : string) : string :=
  "<script>window.__PRELOADED_STATE__ = " ++ blob ++ ";</script>".

Definition search_in (blob : string) : string → option string :=
  fun text => if String.eqb text (page_of blob) then Some blob else None.

Definition loads_as (blob : string) (state : value) : string → option value :=
  fun b => if String.eqb b blob then Some state else None.

Definition serve (status_code : Z) (text : string) : string → Verifier.reply :=
  fun _ => Verifier.Response status_code text.

(** [{"product": null}] *)
Definition blob_null_product : string := "{" ++ q "product" ++ ": null}".
Definition state_null_product : value := VDict [("product", VNone)].

(** [{"product": {"stockLevelStatus":"inStock"}}]: the marker occurs in
    the page, the path does not. *)
Definition blob_no_details : string :=
  "{" ++ q "product" ++ ": {" ++ q "stockLevelStatus" ++ ":" ++ q "inStock" ++ "}}".
Definition state_no_details : value :=
  VDict [("product", VDict [("stockLevelStatus", VStr "inStock")])].

(** A product with three variants: S with 4 pieces, M flagged in stock
    without a quantity, L out of stock. *)
Definition variant (size : string) (stock : list (string * value)) : value :=
  VDict [("stock", VDict stock);
         ("variantOptionQualifiers",
          VList [VDict [("qualifier", VStr "color"); ("value", VStr "Blue")];
                 VDict [("qualifier", VStr "size"); ("value", VStr size)]])].

Definition state_three_sizes : value :=
  VDict [("product", VDict [("productDetails", VDict [("variantOptions",
    VList [variant "S" [("stockLevel", VInt 4); ("stockLevelStatus", VStr "inStock")];
           variant "M" [("stockLevel", VInt 0); ("stockLevelStatus", VStr "inStock")];
           variant "L" [("stockLevel", VInt 0); ("stockLevelStatus", VStr "outOfStock")]])])])].

Definition json_variant (size level flag : string) : string :=
  "{" ++ q "stock" ++ ": {" ++ q "stockLevel" ++ ": " ++ level ++ ", " ++
  q "stockLevelStatus" ++ ": " ++ q flag ++ "}, " ++
  q "variantOptionQualifiers" ++ ": [{" ++ q "qualifier" ++ ": " ++ q "color" ++
  ", " ++ q "value" ++ ": " ++ q "Blue" ++ "}, {" ++ q "qualifier" ++ ": " ++
  q "size" ++ ", " ++ q "value" ++ ": " ++ q size ++ "}]}".

Definition blob_three_sizes : string :=
  "{" ++ q "product" ++ ": {" ++ q "productDetails" ++ ": {" ++
  q "variantOptions" ++ ": [" ++ json_variant "S" "4" "inStock" ++ ", " ++
  json_variant "M" "0" "inStock" ++ ", " ++ json_variant "L" "0" "outOfStock" ++
  "]}}}".

(** A product as the parser stores it. *)
Definition product_of (c : string) (gender : string) : Product :=
  {| code := VStr c; name := VStr "Tee"; price := VStr "Rs.499";
     image := VStr ""; url := SHEIN_BASE_URL ++ "/p/" ++ c; category := gender |}.

(** A Telegram side that delivers everything, and one that delivers
    nothing. *)
Definition telegram_up : list Loop.event → string → value → option string → bool :=
  fun _ _ _ _ => true.
Definition telegram_down : list Loop.event → string → value → option string → bool :=
  fun _ _ _ _ => false.

(** A monitor whose store says that A1 is in stock. *)
Definition monitor_A1_in_stock : Loop.Monitor :=
  {| Loop.stock_state :=
       {[ "A1" := {| Loop.in_stock := true; Loop.details := Some "S (1)" |} ]};
     Loop.last_reset_date := None;
     Loop.trace := [] |}.

Definition monitor_empty : Loop.Monitor :=
  {| Loop.stock_state := ∅; Loop.last_reset_date := None; Loop.trace := [] |}.

Definition found_A1 : gmap string Product := {[ "A1" := product_of "A1" "Men" ]}.

(** A search and a decoder that find nothing. *)
Definition search_nothing : string → option string := fun _ => None.
Definition loads_nothing : string → option value := fun _ => None.

(** A world in which nothing is listed. *)
Definition quiet_world (date hour : Z) : Loop.World :=
  {| Loop.now_date := date; Loop.now_hour := hour;
     Loop.net := fun _ _ _ => Discovery.Response 500 None;
     Loop.page_order := id;
     Loop.http_get := serve 200 "";
     Loop.completion_order := id |}.

(** A world whose listing for Men has one product, with a space before
    its identifier. *)
Definition net_untrimmed : string → Z → nat → Discovery.reply :=
  fun gender page _ =>
    if String.eqb gender "Men" && (page =? 1)
    then Discovery.Response 200 (Some (listing [" A1"]))
    else Discovery.Response 500 None.

Definition world_untrimmed : Loop.World :=
  {| Loop.now_date := 100; Loop.now_hour := 12;
     Loop.net := net_untrimmed;
     Loop.page_order := id;
     Loop.http_get := serve 200 "";
     Loop.completion_order := id |}.

(** What the discovery phase finds in that world. *)
Definition product_untrimmed : Product :=
  {| code := VStr " A1"; name := VStr "Unknown Product"; price := VStr "N/A";
     image := VStr ""; url := SHEIN_BASE_URL ++ "/p/ A1"; category := "Men" |}.

Definition found_untrimmed : gmap string Product := {[ "A1" := product_untrimmed ]}.

(** The end-to-end scenario of the specification: page 1 of the listing
    for Men has the products A and B (one page in all, nothing for Women);
    the detail page of A has two sizes with pieces left, that of B has
    none. *)
Definition state_A : value :=
  VDict [("product", VDict [("productDetails", VDict [("variantOptions",
    VList [variant "S" [("stockLevel", VInt 4); ("stockLevelStatus", VStr "inStock")];
           variant "M" [("stockLevel", VInt 2); ("stockLevelStatus", VStr "inStock")]])])])].

Definition blob_A : string :=
  "{" ++ q "product" ++ ": {" ++ q "productDetails" ++ ": {" ++
  q "variantOptions" ++ ": [" ++ json_variant "S" "4" "inStock" ++ ", " ++
  json_variant "M" "2" "inStock" ++ "]}}}".

Definition state_B : value :=
  VDict [("product", VDict [("productDetails", VDict [("variantOptions",
    VList [variant "S" [("stockLevel", VInt 0); ("stockLevelStatus", VStr "outOfStock")]])])])].

Definition blob_B : string :=
  "{" ++ q "product" ++ ": {" ++ q "productDetails" ++ ": {" ++
  q "variantOptions" ++ ": [" ++ json_variant "S" "0" "outOfStock" ++ "]}}}".

Definition search_AB : string → option string :=
  fun text =>
    if String.eqb text (page_of blob_A) then Some blob_A
    else if String.eqb text (page_of blob_B) then Some blob_B
    else None.

Definition loads_AB : string → option value :=
  fun b =>
    if String.eqb b blob_A then Some state_A
    else if String.eqb b blob_B then Some state_B
    else None.

Definition world_AB : Loop.World :=
  {| Loop.now_date := 100; Loop.now_hour := 12;
     Loop.net := fun gender page _ =>
       if String.eqb gender "Men" && (page =? 1)
       then Discovery.Response 200
              (Some (VDict [("pagination", VDict [("totalPages", VInt 1)]);
                            ("products", VList [VDict [("code", VStr "A")];
                                                VDict [("code", VStr "B")]])]))
       else Discovery.Response 500 None;
     Loop.page_order := id;
     Loop.http_get := fun url =>
       if String.eqb url (SHEIN_BASE_URL ++ "/p/A")
       then Verifier.Response 200 (page_of blob_A)
       else Verifier.Response 200 (page_of blob_B);
     Loop.completion_order := id |}.

(** [{"product": "xxproductDetailsxx"}]: the entry is a text in which
    the name looked up occurs. *)
Definition blob_text_product : string :=
  "{" ++ q "product" ++ ": " ++ q "xxproductDetailsxx" ++ "}".
Definition state_text_product : value :=
  VDict [("product", VStr "xxproductDetailsxx")].


(** A world whose listing for Men has two products with the same
    trimmed identifier: " A1", then "A1". *)
Definition net_overwritten : string → Z → nat → Discovery.reply :=
  fun gender page _ =>
    if String.eqb gender "Men" && (page =? 1)
    then Discovery.Response 200 (Some (listing [" A1"; "A1"]))
    else Discovery.Response 500 None.

Definition world_overwritten : Loop.World :=
  {| Loop.now_date := 100; Loop.now_hour := 12;
     Loop.net := net_overwritten;
     Loop.page_order := id;
     Loop.http_get := serve 200 "";
     Loop.completion_order := id |}.

(** The no-break space U+00A0, and an identifier that ends with it. *)
Definition NBSP : string := String "194" (String "160" EmptyString).
Definition A1_nbsp : string := "A1" ++ NBSP.

End Scenario.

(** ** Notions used to state the further properties *)

Module Props.
Import Py.

Local Open Scope list_scope.

(** A reply that ends [send_telegram_message] with [True]: status 200, or
    a read timeout. *)
Definition accepted (r : Notifier.reply) : bool :=
  match r with
  | Notifier.Status status_code => status_code =? 200
  | Notifier.ReadTimeout => true
  | Notifier.Failure => false
  end.

(** None of the requests of [reqs], made in this order from the start of
    the call, got an accepted reply. *)
Definition all_refused (post : nat → Notifier.request → Notifier.reply)
    (reqs : list Notifier.request) : Prop :=
  ∀ i req, reqs !! i = Some req → accepted (post i req) = false.

(** A warm-up reply that ends [init_session]: status 200. *)
Definition warm (r : Session.reply) : bool :=
  match r with
  | Session.Status status_code => status_code =? 200
  | Session.Failure => false
  end.

(** "image: prefer a colour-variant outfit picture; fall back to the
    first generic image; else empty". *)
Definition outfit_picture (fields : list (string * value)) : option value :=
  match assoc "fnlColorVariantData" fields with
  | Some (VDict x) => assoc "outfitPictureURL" x
  | _ => None
  end.

Definition first_image_url (fields : list (string * value)) : value :=
  match assoc "images" fields with
  | Some (VList (VDict img :: _)) => default (VStr "") (assoc "url" img)
  | _ => VStr ""
  end.

Definition listed_image (fields : list (string * value)) : value :=
  default (first_image_url fields) (outfit_picture fields).

(** No two bindings of a products dict have equal keys. *)
Fixpoint distinct_keys (d : Parser.products) : Prop :=
  match d with
  | [] => True
  | (k, _) :: d' => Forall (fun kr => key_eqb k kr.1 = false) d' ∧ distinct_keys d'
  end.

(** A record found under a filter: it is tagged with the filter and its
    link is on the site. *)
Definition listed_under (gender : string) (kr : value * Parser.Product) : Prop :=
  Parser.category kr.2 = gender ∧
  String.prefix Parser.SHEIN_BASE_URL (Parser.url kr.2) = true.

(** What the state file holds after the events [t], when it held [file]
    before: the mapping of the last save. *)
Fixpoint on_disk (file : gmap string Loop.StockRecord) (t : list Loop.event)
  : gmap string Loop.StockRecord :=
  match t with
  | [] => file
  | Loop.Saved _ snapshot :: t' => on_disk snapshot t'
  | _ :: t' => on_disk file t'
  end.

(** An event of the verification phase that a result of the cycle
    accounts for: an alert is the alert of a product found whose result
    says in stock, with its image, on the channel of its category; a save
    follows a result that is not "unknown". *)
Definition accounted (rc : value → string)
    (all_found : gmap string Parser.Product) (futures : list Loop.future)
    (e : Loop.event) : Prop :=
  match e with
  | Loop.Sent about text photo gender _ =>
      ∃ raw d product,
        (raw, (Some true, d)) ∈ futures ∧
        Loop.lookup_product all_found raw = Ok product ∧
        about = Some (Loop.clean rc raw) ∧
        text = Loop.alert_message rc product d ∧
        photo = Parser.image product ∧
        gender = Some (Parser.category product)
  | Loop.Saved about _ =>
      ∃ raw flag d,
        (raw, (Some flag, d)) ∈ futures ∧ about = Some (Loop.clean rc raw)
  | Loop.DailyReset _ => False
  end.

(** What stands for a character in HTML text: [&], [<] and [>] have an
    entity, any other character stands for itself. *)
Definition entity (c : ascii) : string :=
  if Ascii.eqb c "&" then "&amp;"
  else if Ascii.eqb c "<" then "&lt;"
  else if Ascii.eqb c ">" then "&gt;"
  else String c "".

(** A text escaped in one pass, character by character. *)
Fixpoint escape_once (s : string) : string :=
  match s with
  | EmptyString => ""
  | String c s' => entity c +:+ escape_once s'
  end.

(** [c in s], for a character [c]. *)
Fixpoint occurs (c : ascii) (s : string) : bool :=
  match s with
  | EmptyString => false
  | String c' s' => Ascii.eqb c' c || occurs c s'
  end.

(** What [&] starts in an escaped text: one of the three entities. *)
Definition starts_entity (s : string) : bool :=
  String.prefix "amp;" s || String.prefix "lt;" s || String.prefix "gt;" s.

(** Every [&] of the text starts an entity. *)
Fixpoint entities_only (s : string) : bool :=
  match s with
  | EmptyString => true
  | String c s' =>
      (if Ascii.eqb c "&" then starts_entity s' else true) && entities_only s'
  end.

(** The last binding of [data], in its order, whose key trims to [c]. *)
Definition last_trimming_to (c : string) (data : list (string * value))
  : option (string * value) :=
  List.find (fun kv => String.eqb c (strip kv.1)) (reverse data).

(** The products alerted in the events [t], one entry per alert, sent or
    not. *)
Fixpoint alerted (t : list Loop.event) : list string :=
  match t with
  | [] => []
  | Loop.Sent (Some c) _ _ _ _ :: t' => c :: alerted t'
  | _ :: t' => alerted t'
  end.

(** What the loop of [clean_state] keeps true of [new_data]: trimmed,
    pairwise distinct keys. *)
Definition clean_dict (d : list (string * value)) : Prop :=
  Forall (fun kv => strip kv.1 = kv.1) d ∧ NoDup d.*1.

End Props.

(** ** Further concrete inputs *)

Module Cases.
Import Py.

(** A Telegram API that refuses photos (status 400) and takes texts. *)
Definition post_photo_refused : nat → Notifier.request → Notifier.reply :=
  fun _ req =>
    match req with
    | Notifier.SendPhoto _ _ _ => Notifier.Status 400
    | Notifier.SendMessage _ _ => Notifier.Status 200
    end.

(** One that rate-limits the first request and refuses all the others
    (status 400). *)
Definition post_rate_limited : nat → Notifier.request → Notifier.reply :=
  fun i _ => if (i =? 0)%nat then Notifier.Status 429 else Notifier.Status 400.

End Cases.

(** * Properties *)

(** ** Python primitives *)

Module PyFacts.
Import Py.

Ltac monad_unfold :=
  unfold mbind, result_bind, mret, result_ret in *.

Lemma bind_Ok {A B} (m : result A) (k : A → result B) (b : B) :
  (m ≫= k) = Ok b → ∃ a, m = Ok a ∧ k a = Ok b.
Proof. destruct m as [a|e]; monad_unfold; [eauto | discriminate]. Qed.

Local Open Scope list_scope.

Lemma after_app (t l r q : list ascii) :
  after t l = Some r → after t (l ++ q) = Some (r ++ q).
Proof.
  revert l. induction t as [|a t IH]; intros [|b l]; simpl; try done.
  - by intros [= <-].
  - by intros [= <-].
  - destruct (Ascii.eqb a b); [apply IH|done].
Qed.

Lemma after_length (t l r : list ascii) :
  after t l = Some r → length l = (length t + length r)%nat.
Proof.
  revert l. induction t as [|a t IH]; intros [|b l]; simpl; try done.
  - by intros [= <-].
  - by intros [= <-].
  - destruct (Ascii.eqb a b); [|done]. intros H. by rewrite (IH _ H).
Qed.

Lemma after_split (t l r : list ascii) : after t l = Some r → l = t ++ r.
Proof.
  revert l. induction t as [|a t IH]; intros [|b l]; simpl; try done.
  - by intros [= <-].
  - by intros [= <-].
  - destruct (Ascii.eqb_spec a b) as [->|]; [|done]. intros H.
    by rewrite (IH _ H).
Qed.

Section Spaces.

(** The characters to skip; none is the empty sequence of bytes. *)
Variable spaces : list (list ascii).
Hypothesis spaces_nonempty : Forall (fun t => t ≠ []) spaces.

Lemma skip_space_app (l r q : list ascii) :
  skip_space spaces l = Some r → is_Some (skip_space spaces (l ++ q)).
Proof using Type.
  clear spaces_nonempty.
  induction spaces as [|t ts IH]; simpl; [done|].
  destruct (after t l) as [r'|] eqn:Ht.
  - intros _. by rewrite (after_app _ _ _ q Ht).
  - intros H. destruct (after t (l ++ q)); [done|by apply IH].
Qed.

Lemma skip_space_split (l r : list ascii) :
  skip_space spaces l = Some r → ∃ t, l = t ++ r ∧ (length r < length l)%nat.
Proof using spaces_nonempty.
  revert spaces_nonempty. induction spaces as [|t ts IH]; simpl; [done|].
  intros [Ht Hts]%Forall_cons.
  destruct (after t l) as [r'|] eqn:Hl; [|by apply IH].
  intros [= <-]. exists t. split; [by apply after_split|].
  rewrite (after_length _ _ _ Hl). destruct t; [done|simpl; lia].
Qed.

(** Enough turns leave no white space at the start. *)
Lemma skip_spaces_done (turns : nat) (l : list ascii) :
  (length l ≤ turns)%nat →
  skip_space spaces (skip_spaces spaces turns l) = None.
Proof using spaces_nonempty.
  revert l. induction turns as [|turns IH]; intros l Hl; simpl.
  - destruct (skip_space spaces l) as [r|] eqn:Hr; [|done].
    destruct (skip_space_split _ _ Hr) as (_ & _ & ?). lia.
  - destruct (skip_space spaces l) as [r|] eqn:Hr; [|done].
    apply IH. destruct (skip_space_split _ _ Hr) as (_ & _ & ?). lia.
Qed.

Lemma skip_spaces_fixed (turns : nat) (l : list ascii) :
  skip_space spaces l = None → skip_spaces spaces turns l = l.
Proof using Type. intros H. destruct turns; simpl; [done|by rewrite H]. Qed.

(** What is left is the end of the text. *)
Lemma skip_spaces_split (turns : nat) (l : list ascii) :
  ∃ p, l = p ++ skip_spaces spaces turns l.
Proof using spaces_nonempty.
  revert l. induction turns as [|turns IH]; intros l; simpl; [by exists []|].
  destruct (skip_space spaces l) as [r|] eqn:Hr; [|by exists []].
  destruct (skip_space_split _ _ Hr) as (t & -> & _).
  destruct (IH r) as [p Hp]. exists (t ++ p). by rewrite <- app_assoc, <- Hp.
Qed.

End Spaces.

Lemma WHITESPACE_nonempty : Forall (fun t => t ≠ []) WHITESPACE.
Proof. unfold WHITESPACE. repeat constructor; discriminate. Qed.

Lemma WHITESPACE_rev_nonempty :
  Forall (fun t => t ≠ []) (map (@rev ascii) WHITESPACE).
Proof. unfold WHITESPACE. repeat constructor; discriminate. Qed.

(** Stripping leaves no white space at the start. *)
Lemma lstrip_bytes_done (l : list ascii) :
  skip_space WHITESPACE (lstrip_bytes l) = None.
Proof. by apply skip_spaces_done; [apply WHITESPACE_nonempty|]. Qed.

(** What [rstrip] leaves is the start of the text. *)
Lemma rstrip_bytes_split (l : list ascii) : ∃ q, l = rstrip_bytes l ++ q.
Proof.
  unfold rstrip_bytes.
  destruct (skip_spaces_split _ WHITESPACE_rev_nonempty (length l) (rev l))
    as [p Hp].
  exists (rev p). rewrite <- rev_app_distr, <- Hp. by rewrite rev_involutive.
Qed.

Lemma rstrip_bytes_idem (l : list ascii) :
  rstrip_bytes (rstrip_bytes l) = rstrip_bytes l.
Proof.
  unfold rstrip_bytes. rewrite rev_involutive. f_equal.
  apply skip_spaces_fixed.
  apply skip_spaces_done; [apply WHITESPACE_rev_nonempty|].
  by rewrite length_rev.
Qed.

(** Dropping the white space at the end brings none to the start. *)
Lemma lstrip_rstrip_bytes (l : list ascii) :
  skip_space WHITESPACE l = None →
  lstrip_bytes (rstrip_bytes l) = rstrip_bytes l.
Proof.
  intros Hl. apply skip_spaces_fixed.
  destruct (rstrip_bytes_split l) as [q Hq].
  destruct (skip_space WHITESPACE (rstrip_bytes l)) as [r|] eqn:Hr; [|done].
  apply (skip_space_app _ _ _ q) in Hr as [r' Hr]. rewrite <- Hq in Hr.
  congruence.
Qed.

(** Stripping twice is stripping once. *)
Lemma strip_idem (s : string) : strip (strip s) = strip s.
Proof.
  unfold strip, rstrip, lstrip.
  rewrite !String.list_ascii_of_string_of_list_ascii. f_equal.
  rewrite lstrip_rstrip_bytes by apply lstrip_bytes_done.
  apply rstrip_bytes_idem.
Qed.

(** A text with white space at an end is the stripped form of no text. *)
Lemma strip_not_fixed (s t : string) : strip s ≠ s → strip t ≠ s.
Proof. intros Hs Ht. apply Hs. rewrite <- Ht. apply strip_idem. Qed.

(** Length, iteration, subscript and slice count characters, not
    bytes. *)
Example characters_not_bytes :
  len (VStr "né") = Ok 2%nat ∧
  iter (VStr "éa€") = Ok [VStr "é"; VStr "a"; VStr "€"] ∧
  getitem0 (VStr "éa") = Ok (VStr "é") ∧
  take_chars 2 "€éa" = "€é".
Proof. done. Qed.

(** [str.strip] removes the white space of Unicode, not only that of
    ASCII, and at both ends. *)
Example strip_no_break_space :
  strip Scenario.A1_nbsp = "A1" ∧
  strip (Scenario.NBSP +:+ " A1 " +:+ Scenario.NBSP +:+ " ") = "A1" ∧
  strip ("A" +:+ Scenario.NBSP +:+ "1") = "A" +:+ Scenario.NBSP +:+ "1".
Proof. done. Qed.

End PyFacts.

(** ** The product parser *)

Module ParserFacts.
Import Py Parser PyFacts.

Lemma contains_dict (k : string) (d : list (string * value)) :
  contains k (VDict d) = Ok (bool_decide (is_Some (assoc k d))).
Proof. done. Qed.

(** The two membership tests and the double subscript of a price block,
    against the display field of the specification. *)
Lemma nested_display (fields : list (string * value)) (outer : string) :
  match has_nested (VDict fields) outer "displayformattedValue" with
  | Ok true =>
      ∀ v, get_nested (VDict fields) outer "displayformattedValue" = Ok v →
           Spec.display_field fields outer = Some v
  | Ok false => Spec.display_field fields outer = None
  | Raise _ => True
  end.
Proof.
  unfold has_nested, get_nested, Spec.display_field, contains, getitem.
  monad_unfold.
  destruct (assoc outer fields) as [x|] eqn:Hx; simpl.
  - destruct x as [| | | s |l|d]; simpl; try done.
    + destruct (substring_of _ s); [intros v; discriminate | done].
    + destruct (existsb _ l); [intros v; discriminate | done].
    + destruct (assoc "displayformattedValue" d) as [w|] eqn:Hw; simpl.
      * intros v; congruence.
      * done.
  - done.
Qed.

(** [parse_mrp] computes the price of the specification whenever it
    returns. *)
Lemma parse_mrp_spec (fields : list (string * value)) (v : value) :
  parse_mrp (VDict fields) = Ok v → v = Spec.listed_price fields.
Proof.
  unfold parse_mrp, Spec.listed_price. intros H.
  pose proof (nested_display fields "retailPrice") as Hr.
  pose proof (nested_display fields "offerPrice") as Ho.
  monad_unfold.
  destruct (has_nested (VDict fields) "retailPrice" _) as [[|]|]; try discriminate.
  - by rewrite (Hr v H).
  - rewrite Hr.
    destruct (has_nested (VDict fields) "offerPrice" _) as [[|]|]; try discriminate.
    + by rewrite (Ho v H).
    + rewrite Ho. congruence.
Qed.

(** On an entry that is an object or missing, the two membership tests
    evaluate, and the double subscript returns when they hold. *)
Lemma nested_total (fields : list (string * value)) (outer inner : string) :
  Spec.object_or_missing (assoc outer fields) = true →
  has_nested (VDict fields) outer inner = Ok false ∨
  (has_nested (VDict fields) outer inner = Ok true ∧
   ∃ v, get_nested (VDict fields) outer inner = Ok v).
Proof.
  unfold has_nested, get_nested, contains, getitem, Spec.object_or_missing.
  monad_unfold.
  destruct (assoc outer fields) as [[| | | | |x]|]; simpl; try done; [|by left].
  intros _. destruct (assoc inner x) as [v|]; simpl; [right|by left].
  split; [done|by exists v].
Qed.

Lemma parse_mrp_total (fields : list (string * value)) :
  Spec.object_or_missing (assoc "retailPrice" fields) = true →
  Spec.object_or_missing (assoc "offerPrice" fields) = true →
  ∃ v, parse_mrp (VDict fields) = Ok v.
Proof.
  intros Hr Ho. unfold parse_mrp. monad_unfold.
  destruct (nested_total fields "retailPrice" "displayformattedValue" Hr)
    as [->|[-> [v ->]]]; [|by exists v].
  destruct (nested_total fields "offerPrice" "displayformattedValue" Ho)
    as [->|[-> [v ->]]]; [by eexists|by exists v].
Qed.

Lemma parse_image_total (fields : list (string * value)) :
  Spec.object_or_missing (assoc "fnlColorVariantData" fields) = true →
  match assoc "images" fields with
  | None | Some (VList []) | Some (VList (VDict _ :: _)) => true
  | _ => false
  end = true →
  ∃ v, parse_image (VDict fields) = Ok v.
Proof.
  intros Hc Hi. unfold parse_image. monad_unfold.
  destruct (nested_total fields "fnlColorVariantData" "outfitPictureURL" Hc)
    as [->|[-> [v ->]]]; [|by exists v].
  unfold contains, getitem, len, getitem0, get_default, get. monad_unfold.
  destruct (assoc "images" fields) as [[| | | |[|[| | | | |x] l]|]|]; simpl;
    try done; by eexists.
Qed.

Section Facts.

Variable repr_container : value → string.

(** An entry whose identifier is missing or falsy is dropped. *)
Lemma parse_product_drops (fields : list (string * value)) (d : products)
    (gender : string) :
  truthy (default VNone (assoc "code" fields)) = false →
  _parse_product repr_container (VDict fields) d gender = Ok d.
Proof.
  intros H. unfold _parse_product, get. monad_unfold. by rewrite H.
Qed.

(** What a normal return of the parser means. *)
Lemma parse_product_returns (p : value) (d d' : products) (gender : string) :
  _parse_product repr_container p d gender = Ok d' →
  ∃ fields, p = VDict fields ∧
    let c := default VNone (assoc "code" fields) in
    (truthy c = false ∧ d' = d) ∨
    (truthy c = true ∧ hashable c = true ∧
     ∃ r, d' = dict_set c r d ∧ code r = c ∧
          price r = Spec.listed_price fields ∧
          name r = Spec.listed_name fields ∧
          category r = gender).
Proof.
  unfold _parse_product. intros H.
  destruct p as [| | | | |fields]; try discriminate.
  exists fields. split; [done|]. simpl in *. monad_unfold. simpl in H.
  destruct (truthy (default VNone (assoc "code" fields))) eqn:Hc; simpl in H.
  2:{ left. split; congruence. }
  right. split; [done|].
  destruct (parse_mrp (VDict fields)) as [mrp|] eqn:Hmrp; [|discriminate].
  destruct (parse_image (VDict fields)) as [img|]; [|discriminate].
  unfold get_default, get in H. monad_unfold.
  destruct (parse_url _ _ _) as [u|]; [|discriminate].
  unfold setitem in H.
  destruct (hashable _) eqn:Hh; [|discriminate].
  split; [done|]. injection H as <-.
  eexists. split; [reflexivity|]. simpl.
  split; [done|]. split; [by apply parse_mrp_spec|]. done.
Qed.

(** On a well-formed entry the parser returns. *)
Lemma parse_product_total (fields : list (string * value)) (d : products)
    (gender : string) :
  Spec.well_formed_entry fields = true →
  ∃ d', _parse_product repr_container (VDict fields) d gender = Ok d'.
Proof.
  unfold Spec.well_formed_entry. rewrite !andb_true_iff.
  intros [[[[[Hr Ho] Hc] Hi] Hu] Hh].
  unfold _parse_product, get. monad_unfold.
  destruct (negb (truthy _)); [by eexists|].
  destruct (parse_mrp_total fields Hr Ho) as [mrp ->].
  destruct (parse_image_total fields Hc Hi) as [img ->].
  unfold get_default, get, parse_url, get_default, get, setitem. monad_unfold.
  rewrite Hh.
  destruct (assoc "url" fields) as [[| | |u| |]|]; simpl; try done; by eexists.
Qed.

(** A key that can be hashed equals itself. *)
Lemma key_eqb_refl (k : value) : hashable k = true → key_eqb k k = true.
Proof.
  destruct k as [|[]| | | |]; simpl; try done.
  - intros _. apply Z.eqb_refl.
  - intros _. apply String.eqb_refl.
Qed.

(** [dict_set] keeps a property of the bindings that the new binding has
    under every key equal to the one assigned. *)
Lemma dict_set_Forall (P : value * Product → Prop) (k : value) (v : Product)
    (d : products) :
  Forall P d →
  (∀ k', key_eqb k' k = true → P (k', v)) →
  hashable k = true →
  Forall P (dict_set k v d).
Proof.
  intros Hd Hnew Hk. induction Hd as [|[k' v'] d HP Hd IH]; simpl.
  - constructor; [|constructor]. apply Hnew. by apply key_eqb_refl.
  - destruct (key_eqb k' k) eqn:E; constructor; auto.
Qed.

End Facts.

Lemma parse_product_keyed (rc : value → string) (p : value) (d d' : products)
    (gender : string) :
  _parse_product rc p d gender = Ok d' →
  Forall Spec.keyed d → Forall Spec.keyed d'.
Proof.
  intros H Hd.
  destruct (parse_product_returns rc p d d' gender H) as (fields & -> & Hc).
  simpl in Hc. destruct Hc as [[_ ->]|(_ & Hh & r & -> & Hr & _)]; [done|].
  apply dict_set_Forall; [done| |done].
  intros k' Hk'. unfold Spec.keyed. simpl. rewrite Hr. done.
Qed.

(** C6, as amended.  For every raw listing entry (a JSON object) the
    product parser drops the entry when its identifier is absent or falsy
    (null, the empty string, zero, false, an empty array or object), and
    then returns normally.  Otherwise, whenever it returns, it has stored
    one record under the identifier: its price is the retail-price display
    field if present, else the offer-price display field, else "N/A"; its
    name is "Unknown Product" when the name field is missing.  The stored
    record carries the identifier, so a mapping without unidentified
    records stays so.  The parser does return on every entry whose fields
    have the JSON types it expects. *)
Theorem parse_product_spec (rc : value → string) (fields : list (string * value))
    (d : products) (gender : string) :
  let c := default VNone (assoc "code" fields) in
  (truthy c = true ∨ _parse_product rc (VDict fields) d gender = Ok d) ∧
  (Spec.well_formed_entry fields = true →
   ∃ d', _parse_product rc (VDict fields) d gender = Ok d') ∧
  (∀ d', _parse_product rc (VDict fields) d gender = Ok d' →
         Forall Spec.identified d →
         (if truthy c then
            ∃ r, d' = dict_set c r d ∧ code r = c ∧
                 price r = Spec.listed_price fields ∧
                 name r = Spec.listed_name fields
          else d' = d) ∧
         Forall Spec.identified d').
Proof.
  intros c. split; [|split].
  - destruct (truthy c) eqn:Hc; [by left|right].
    by apply parse_product_drops.
  - apply parse_product_total.
  - intros d' H Hd.
    destruct (parse_product_returns rc _ d d' gender H) as (fields' & [= <-] & Hc).
    simpl in Hc. fold c in Hc.
    destruct Hc as [[Hc ->]|(Hc & Hh & r & -> & Hr & Hp & Hn & _)]; rewrite Hc.
    + done.
    + split; [by exists r|].
      apply dict_set_Forall; [done| |done].
      intros k' _. unfold Spec.identified. simpl. by rewrite Hr.
Qed.

(** The theorem at a listing entry with both prices and no name. *)
Lemma parse_product_spec_witness :
  let fields := [("code", VStr "443318408_blue");
                 ("retailPrice", VDict [("displayformattedValue", VStr "Rs.999")]);
                 ("offerPrice", VDict [("displayformattedValue", VStr "Rs.499")])] in
  ∃ r d', _parse_product (fun _ => "") (VDict fields) [] "Men" = Ok d' ∧
          d' = dict_set (VStr "443318408_blue") r [] ∧
          price r = VStr "Rs.999" ∧ name r = VStr "Unknown Product" ∧
          Forall Spec.identified d'.
Proof.
  intros fields.
  destruct (parse_product_spec (fun _ => "") fields [] "Men") as (_ & _ & H).
  destruct (H _ eq_refl (Forall_nil_2 _)) as [(r & Hd & _ & Hp & Hn) Hid].
  exists r. eexists. split; [reflexivity|].
  split; [exact Hd|]. split; [exact Hp|]. split; [exact Hn|exact Hid].
Defined.

(** C6 as stated fails: an entry whose identifier field is present but
    empty is dropped, no record is emitted for it. *)
Lemma parse_product_empty_code_dropped :
  let entry := VDict [("code", VStr ""); ("name", VStr "Tee")] in
  get entry "code" = Ok (Some (VStr "")) ∧
  _parse_product (fun _ => "") entry [] "Men" = Ok [].
Proof. done. Qed.

End ParserFacts.

(** ** Discovery *)

Module DiscoveryFacts.
Import Py Parser Discovery PyFacts.

Local Open Scope list_scope.

(** A page whose retries are exhausted makes [fetch_page] return
    [None]. *)
Lemma fetch_attempts_exhausted (replies : nat → reply) (attempt left : nat) :
  forallb (fun i => negb (Spec.usable (replies i))) (seq attempt left) = true →
  fetch_attempts replies attempt left = VNone.
Proof.
  revert attempt. induction left as [|left IH]; intros attempt; simpl; [done|].
  rewrite andb_true_iff, negb_true_iff. intros [Hu Hrest].
  rewrite (IH _ Hrest).
  destruct (replies attempt) as [status [data|]|]; simpl in *.
  - by rewrite Hu.
  - by destruct (status =? 200).
  - done.
Qed.

Lemma fetch_page_exhausted (net : string → Z → nat → reply) (page : Z)
    (gender : string) :
  Spec.exhausted (net gender page) = true → fetch_page net page gender = VNone.
Proof. apply fetch_attempts_exhausted. Qed.

Section Facts.

Variable repr_container : value → string.
Variable net : string → Z → nat → reply.


End Facts.

Section Keyed.

Variable repr_container : value → string.
Variable net : string → Z → nat → reply.

Lemma parse_entries_keyed (entries : list value) (d d' : products)
    (gender : string) :
  parse_entries repr_container entries d gender = Ok d' →
  Forall Spec.keyed d → Forall Spec.keyed d'.
Proof.
  revert d. induction entries as [|p entries IH]; intros d; simpl.
  - by intros [= <-].
  - intros (d1 & H1 & H2)%bind_Ok Hd.
    eapply IH; [done|]. by eapply ParserFacts.parse_product_keyed.
Qed.

Lemma process_first_page_keyed (data : value) (d d' : products) (gender : string) :
  process_first_page repr_container data d gender = Ok d' →
  Forall Spec.keyed d → Forall Spec.keyed d'.
Proof.
  unfold process_first_page. intros ([|] & _ & H)%bind_Ok.
  - apply bind_Ok in H as (ps & _ & H).
    apply bind_Ok in H as (entries & _ & H).
    by apply (parse_entries_keyed _ _ _ _ H).
  - by injection H as <-.
Qed.

Lemma process_page_keyed (data : value) (d d' : products) (gender : string) :
  process_page repr_container data d gender = Ok d' →
  Forall Spec.keyed d → Forall Spec.keyed d'.
Proof.
  unfold process_page. destruct (truthy data); [|by intros [= <-]].
  intros ([|] & _ & H)%bind_Ok.
  - apply bind_Ok in H as (ps & _ & H).
    apply bind_Ok in H as (n & _ & H).
    apply bind_Ok in H as (entries & _ & H).
    by apply (parse_entries_keyed _ _ _ _ H).
  - by injection H as <-.
Qed.

Lemma process_pages_keyed (pages : list Z) (d d' : products) (gender : string) :
  process_pages repr_container net pages d gender = Ok d' →
  Forall Spec.keyed d → Forall Spec.keyed d'.
Proof.
  revert d. induction pages as [|k pages IH]; intros d; simpl.
  - by intros [= <-].
  - intros (d1 & H1 & H2)%bind_Ok Hd.
    eapply IH; [done|]. by eapply process_page_keyed.
Qed.

(** Every record that discovery returns sits under a key equal to its
    own identifier. *)
Lemma fetch_products_keyed (sched : list Z → list Z) (gender : string)
    (d : products) :
  fetch_products_for_gender repr_container net sched gender = Ok d →
  Forall Spec.keyed d.
Proof.
  unfold fetch_products_for_gender.
  destruct (negb (truthy _)); [by intros [= <-]|].
  intros (total & _ & H)%bind_Ok.
  apply bind_Ok in H as (d1 & H1 & H).
  apply bind_Ok in H as ([|] & _ & H).
  - eapply process_pages_keyed; [done|].
    by eapply process_first_page_keyed.
  - injection H as <-. by eapply process_first_page_keyed.
Qed.

End Keyed.

Section Listing.

Variable repr_container : value → string.
Variable net : string → Z → nat → reply.






End Listing.




End DiscoveryFacts.

(** ** The stock verifier *)

Module VerifierFacts.
Import Py Verifier PyFacts.

Section Facts.

Variable repr_container : value → string.

Lemma find_size_decoded (ql : list value) (qs : list Spec.Qualifier) :
  Forall2 (fun q q' => Spec.decode_qualifier q = Some q') ql qs →
  find_size ql
  = Ok (match find (fun q => tagged_size (Spec.tag q)) qs with
        | Some q => default VNone (Spec.label q)
        | None => VStr "Unknown"
        end).
Proof.
  induction 1 as [|q q' ql qs Hq _ IH]; simpl; [done|].
  destruct q as [| | | | |d]; try discriminate.
  injection Hq as <-. simpl. monad_unfold.
  by destruct (tagged_size (assoc "qualifier" d)).
Qed.

(** One turn of the loop over the variants, on a variant that reads as
    the specification expects. *)
Lemma variant_entry_decoded (v : value) (w : Spec.Variant) :
  Spec.decode_variant v = Some w →
  variant_entry repr_container v
  = Ok (if Spec.counted w then Some (Spec.detail repr_container w) else None).
Proof.
  unfold Spec.decode_variant, variant_entry, get_default, get.
  destruct v as [| | | | |d]; try discriminate. monad_unfold.
  destruct (default (VDict []) (assoc "stock" d)) as [| | | | |stock];
    try discriminate.
  destruct (default (VList []) (assoc "variantOptionQualifiers" d))
    as [| | | |quals|]; try discriminate.
  destruct (default (VInt 0) (assoc "stockLevel" stock)) as [| |qty| | |] eqn:Hq;
    try discriminate.
  destruct (mapM Spec.decode_qualifier quals) as [qs|] eqn:Hqs; [|discriminate].
  simpl. intros [= <-].
  apply mapM_Some in Hqs. rewrite (find_size_decoded _ _ Hqs).
  unfold Spec.counted, Spec.detail, Spec.size_label. simpl.
  destruct (0 <? qty); simpl; [done|].
  by destruct (is_str "inStock" _).
Qed.

Lemma collect_sizes_decoded (vs : list value) (ws : list Spec.Variant) :
  Forall2 (fun v w => Spec.decode_variant v = Some w) vs ws →
  collect_sizes repr_container vs
  = Ok (map (Spec.detail repr_container)
          (filter (fun w => Spec.counted w = true) ws)).
Proof.
  induction 1 as [|v w vs ws Hv _ IH]; simpl; [done|].
  rewrite (variant_entry_decoded _ _ Hv), IH. monad_unfold.
  rewrite filter_cons. destruct (Spec.counted w) eqn:Hc.
  - by rewrite decide_True.
  - by rewrite decide_False.
Qed.

Lemma none_counted (ws : list Spec.Variant) :
  existsb Spec.counted ws = false →
  filter (fun w => Spec.counted w = true) ws = [].
Proof.
  induction ws as [|w ws IH]; simpl; [done|].
  rewrite orb_false_iff. intros [Hw Hws].
  rewrite filter_cons, decide_False by congruence. auto.
Qed.

Lemma some_counted (ws : list Spec.Variant) :
  existsb Spec.counted ws = true →
  filter (fun w => Spec.counted w = true) ws ≠ [].
Proof.
  induction ws as [|w ws IH]; simpl; [done|].
  rewrite filter_cons. destruct (Spec.counted w) eqn:Hw; simpl; [done|auto].
Qed.

(** The inner block on a state that parses. *)
Lemma inspect_state_decoded (state : value) (text : string)
    (ws : list Spec.Variant) :
  Spec.decode_page state = Some ws →
  inspect_state repr_container state text = Ok (Spec.aggregate repr_container ws).
Proof.
  unfold Spec.decode_page, Spec.product_details, inspect_state, has_nested,
    get_nested, contains, getitem, get_default, get.
  destruct state as [| | | | |d]; try discriminate.
  destruct (assoc "product" d) as [[| | | | |p]|] eqn:Hp; try discriminate.
  simpl.
  destruct (assoc "productDetails" p) as [[| | | | |dd]|] eqn:Hd; try discriminate.
  monad_unfold. simpl. rewrite ?Hd.
  destruct (default (VList []) (assoc "variantOptions" dd)) as [| | | |vs|];
    try discriminate.
  intros Hws%mapM_Some. simpl.
  rewrite (collect_sizes_decoded _ _ Hws). unfold Spec.aggregate.
  destruct (existsb Spec.counted ws) eqn:He.
  - pose proof (some_counted _ He) as Hne.
    destruct (filter _ ws) as [|w' l]; [done|]. done.
  - by rewrite (none_counted _ He).
Qed.

Variable http_get : string → reply.
Variable search_state : string → option string.
Variable json_loads : string → option value.

(** The verifier on a page that is fetched with status 200 and embeds a
    state that decodes to [state]. *)
Lemma verify_stock_fetched (product_code : value) (text blob : string)
    (state : value) :
  http_get (detail_url repr_container product_code) = Response 200 text →
  search_state text = Some blob →
  json_loads blob = Some state →
  verify_stock repr_container http_get search_state json_loads product_code
  = match inspect_state repr_container state text with
    | Ok r => r
    | Raise _ => (Some false, "Error")
    end.
Proof.
  unfold verify_stock, detail_url. by intros -> -> ->.
Qed.

(** A 403 gives the "unknown" result. *)
Lemma verify_stock_403 (product_code : value) (text : string) :
  http_get (detail_url repr_container product_code) = Response 403 text →
  verify_stock repr_container http_get search_state json_loads product_code
  = (None, "403").
Proof. unfold verify_stock, detail_url. by intros ->. Qed.

End Facts.

(** C3.  For every detail page that is fetched and parses (status 200, an
    embedded state that decodes, the path product.productDetails, variant
    records with a stock quantity, a status flag and qualifiers), the
    verifier counts a variant exactly when its quantity is greater than
    zero or its status flag is "inStock", describes it as "{size}
    ({quantity})" when the quantity is positive and "{size} (In Stock)"
    otherwise, with the size of the first qualifier tagged "size" and
    "Unknown" without one, and returns (true, the descriptions joined by
    ", ") when a variant is counted and (false, "Out of Stock") when none
    is. *)
Theorem verify_stock_variants (rc : value → string) (http_get : string → reply)
    (search_state : string → option string) (json_loads : string → option value)
    (product_code : value) (text blob : string) (state : value)
    (ws : list Spec.Variant) :
  http_get (detail_url rc product_code) = Response 200 text →
  search_state text = Some blob →
  json_loads blob = Some state →
  Spec.decode_page state = Some ws →
  verify_stock rc http_get search_state json_loads product_code
  = Spec.aggregate rc ws.
Proof.
  intros Hget Hsearch Hloads Hws.
  rewrite (verify_stock_fetched rc _ _ _ _ _ _ _ Hget Hsearch Hloads).
  by rewrite (inspect_state_decoded rc _ _ _ Hws).
Qed.

(** The theorem on a page with sizes S (4 pieces), M (flagged in stock)
    and L (out of stock). *)
Lemma verify_stock_variants_witness :
  verify_stock Scenario.no_repr
    (Scenario.serve 200 (Scenario.page_of Scenario.blob_three_sizes))
    (Scenario.search_in Scenario.blob_three_sizes)
    (Scenario.loads_as Scenario.blob_three_sizes Scenario.state_three_sizes)
    (VStr "443318408_blue")
  = (Some true, "S (4), M (In Stock)").
Proof.
  etrans;
    [eapply (verify_stock_variants _ _ _ _ _ _ _ Scenario.state_three_sizes);
     reflexivity
    |reflexivity].
Defined.

(** C4, as amended.  For every detail page whose embedded state decodes
    but lacks the path product.productDetails, the verifier returns
    not-in-stock, never in-stock.  The reason is "Structure Mismatch (OOS
    Safety)" when the page body contains the in-stock marker and
    "Structure Mismatch" otherwise, except when testing the path raises,
    and then the reason is "Error": that is so exactly when the value
    tested (the "product" entry of the state, or the state itself when it
    is no object) is null, a boolean or a number, or is a text or an
    array in which the name looked up occurs. *)
Theorem verify_stock_structure_mismatch (rc : value → string)
    (http_get : string → reply) (search_state : string → option string)
    (json_loads : string → option value) (product_code : value)
    (text blob : string) (state : value) :
  http_get (detail_url rc product_code) = Response 200 text →
  search_state text = Some blob →
  json_loads blob = Some state →
  Spec.product_details state = None →
  verify_stock rc http_get search_state json_loads product_code
  = (Some false,
     if Spec.path_test_raises state then "Error" else Spec.mismatch_reason text).
Proof.
  intros Hget Hsearch Hloads Hpath.
  rewrite (verify_stock_fetched rc _ _ _ _ _ _ _ Hget Hsearch Hloads).
  unfold inspect_state, has_nested, get_nested, contains, getitem,
    Spec.mismatch_reason, Spec.path_test_raises, Spec.scalar, Spec.mentions.
  unfold Spec.product_details in Hpath. monad_unfold.
  destruct (substring_of IN_STOCK_MARKER text);
    (destruct state as [| | |s|l|d]; simpl;
     [..|destruct (assoc "product" d) as [[| | |s|l|p]|] eqn:Hx; simpl; rewrite ?Hpath];
     try destruct (substring_of _ s); try destruct (existsb _ l); simpl;
     reflexivity).
Qed.

(** The theorem on a page whose state is [{"product":
    {"stockLevelStatus":"inStock"}}]. *)
Lemma verify_stock_structure_mismatch_witness :
  verify_stock Scenario.no_repr
    (Scenario.serve 200 (Scenario.page_of Scenario.blob_no_details))
    (Scenario.search_in Scenario.blob_no_details)
    (Scenario.loads_as Scenario.blob_no_details Scenario.state_no_details)
    (VStr "443318408_blue")
  = (Some false, "Structure Mismatch (OOS Safety)").
Proof.
  apply (verify_stock_structure_mismatch Scenario.no_repr
           (Scenario.serve 200 (Scenario.page_of Scenario.blob_no_details))
           (Scenario.search_in Scenario.blob_no_details)
           (Scenario.loads_as Scenario.blob_no_details Scenario.state_no_details)
           (VStr "443318408_blue") (Scenario.page_of Scenario.blob_no_details)
           Scenario.blob_no_details Scenario.state_no_details
           eq_refl eq_refl eq_refl eq_refl).
Defined.

(** On the state [{"product": "xxproductDetailsxx"}] both membership
    tests hold, the subscript raises, and the reason is "Error". *)
Example verify_stock_text_product_error :
  Spec.product_details Scenario.state_text_product = None ∧
  has_nested Scenario.state_text_product "product" "productDetails" = Ok true ∧
  verify_stock Scenario.no_repr
    (Scenario.serve 200 (Scenario.page_of Scenario.blob_text_product))
    (Scenario.search_in Scenario.blob_text_product)
    (Scenario.loads_as Scenario.blob_text_product Scenario.state_text_product)
    (VStr "443318408_blue")
  = (Some false, "Error").
Proof. done. Qed.

(** C4 as stated fails: on the state [{"product": null}], which decodes
    and lacks the path, the membership test raises and the reason is
    "Error", neither of the two "Structure Mismatch" texts. *)
Lemma verify_stock_null_product_error :
  Spec.product_details Scenario.state_null_product = None ∧
  verify_stock Scenario.no_repr
    (Scenario.serve 200 (Scenario.page_of Scenario.blob_null_product))
    (Scenario.search_in Scenario.blob_null_product)
    (Scenario.loads_as Scenario.blob_null_product Scenario.state_null_product)
    (VStr "443318408_blue")
  = (Some false, "Error").
Proof. done. Qed.

End VerifierFacts.

(** ** The verification loop *)

Module LoopFacts.
Import Py Parser Loop PyFacts.

Local Open Scope list_scope.

Lemma silent_on_nil (c : string) : Spec.silent_on c [].
Proof. constructor. Qed.

Lemma silent_on_app (c : string) (t1 t2 : list event) :
  Spec.silent_on c t1 → Spec.silent_on c t2 → Spec.silent_on c (t1 ++ t2).
Proof. apply Forall_app_2. Qed.

Lemma silent_on_alerts (c : string) (t : list event) :
  Spec.silent_on c t → List.filter (Spec.alert_for c) t = [].
Proof.
  induction 1 as [|e t [Ha _] _ IH]; simpl; [done|]. by rewrite Ha.
Qed.

Lemma silent_on_updates (c : string) (t : list event) :
  Spec.silent_on c t → List.filter (Spec.update_of c) t = [].
Proof.
  induction 1 as [|e t [_ Hu] _ IH]; simpl; [done|]. by rewrite Hu.
Qed.

Lemma resets_app (t1 t2 : list event) :
  Spec.resets (t1 ++ t2) = Spec.resets t1 ++ Spec.resets t2.
Proof.
  induction t1 as [|[] t1 IH]; simpl; by rewrite ?IH.
Qed.

Lemma seen_self (c : string) (processed : gset string) :
  c ∈ ({[c]} ∪ processed : gset string).
Proof. apply elem_of_union_l. by apply elem_of_singleton. Qed.

Lemma seen_mono (c x : string) (processed : gset string) :
  c ∈ processed → c ∈ ({[x]} ∪ processed : gset string).
Proof. apply elem_of_union_r. Qed.

Lemma unseen_other (c x : string) (processed : gset string) :
  x ≠ c → c ∉ processed → c ∉ ({[x]} ∪ processed : gset string).
Proof.
  intros Hne Hc [Hin%elem_of_singleton|Hin]%elem_of_union; congruence.
Qed.

Lemma eqb_ne (c code : string) : c ≠ code → String.eqb code c = false.
Proof. intros H. apply String.eqb_neq. congruence. Qed.

Section Facts.

Variable repr_container : value → string.
Variable telegram : list event → string → value → option string → bool.

(** The "unknown" result leaves the monitor as it is. *)
Lemma handle_result_unknown (product : Product) (code d : string) (m : Monitor) :
  handle_result repr_container telegram product code (None, d) m = m.
Proof. done. Qed.

(** What handling one result can do: it appends events, all of them about
    the identifier handled, at most one alert and at most one write; it
    leaves the reset marker and the records of the other identifiers
    alone. *)
Lemma handle_result_frame (product : Product) (code : string)
    (v : Verifier.verdict) (m : Monitor) :
  let m' := handle_result repr_container telegram product code v m in
  ∃ new,
    trace m' = trace m ++ new ∧
    last_reset_date m' = last_reset_date m ∧
    Spec.resets new = [] ∧
    (length (List.filter (Spec.alert_for code) new) ≤ 1)%nat ∧
    (length (List.filter (Spec.update_of code) new) ≤ 1)%nat ∧
    ∀ c, c ≠ code →
         stock_state m' !! c = stock_state m !! c ∧ Spec.silent_on c new.
Proof.
  destruct v as [[[|]|] d]; unfold handle_result; simpl.
  - destruct (prev_state code m); simpl.
    + exists []. rewrite app_nil_r. repeat split; auto; constructor.
    + destruct (telegram _ _ _ _) eqn:Ht; simpl.
      * eexists [_; _]. rewrite <- app_assoc. simpl.
        split; [reflexivity|]. simpl. rewrite !String.eqb_refl. simpl.
        repeat split; auto.
        -- by rewrite lookup_insert_ne.
        -- repeat constructor; simpl; by apply eqb_ne.
      * eexists [_]. split; [reflexivity|]. simpl. rewrite String.eqb_refl.
        repeat split; auto.
        repeat constructor; simpl; by apply eqb_ne.
  - destruct (prev_state code m); simpl.
    + eexists [_]. split; [reflexivity|]. simpl. rewrite String.eqb_refl.
      repeat split; auto.
      * by rewrite lookup_insert_ne.
      * repeat constructor; simpl; by apply eqb_ne.
    + exists []. rewrite app_nil_r. repeat split; auto; constructor.
  - exists []. rewrite app_nil_r. repeat split; auto; constructor.
Qed.

(** An identifier already processed in the cycle, or whose every result
    is "unknown", is left alone by the whole loop, however it ends. *)
Lemma verification_loop_inert (all_found : gmap string Product)
    (futures : list future) (processed : gset string) (m : Monitor) (c : string) :
  (c ∈ processed ∨
   ∀ raw v, (raw, v) ∈ futures → clean repr_container raw = c → v.1 = None) →
  let m' := monitor_of (verification_loop repr_container telegram all_found
                          futures processed m) in
  stock_state m' !! c = stock_state m !! c ∧
  ∃ new, trace m' = trace m ++ new ∧ Spec.silent_on c new.
Proof.
  revert processed m.
  induction futures as [|[raw v] futures IH]; intros processed m Hc; simpl.
  - split; [done|]. exists []. rewrite app_nil_r. split; [done|constructor].
  - case_decide as Hseen.
    + apply IH. destruct Hc as [Hc|Hc]; [by left|right].
      intros raw' v' Hin. apply Hc. by right.
    + destruct (lookup_product all_found raw) as [product|e]; simpl.
      2:{ split; [done|]. exists []. rewrite app_nil_r. split; [done|constructor]. }
      destruct (decide (c = clean repr_container raw)) as [->|Hne].
      * assert (v.1 = None) as Hv.
        { destruct Hc as [Hc|Hc]; [done|]. eapply Hc; [by left|done]. }
        destruct v as [flag d]. simpl in Hv. subst flag.
        rewrite handle_result_unknown. apply IH. left. apply seen_self.
      * destruct (handle_result_frame product (clean repr_container raw) v m)
          as (new & Ht & _ & _ & _ & _ & Hframe).
        destruct (Hframe c Hne) as [Hs Hsil].
        edestruct (IH ({[clean repr_container raw]} ∪ processed)
                     (handle_result repr_container telegram product
                        (clean repr_container raw) v m)) as [Hs' (new' & Ht' & Hsil')].
        { destruct Hc as [Hc|Hc]; [left; by apply seen_mono|right].
          intros raw' v' Hin. apply Hc. by right. }
        split; [by rewrite Hs', Hs|].
        exists (new ++ new'). rewrite Ht', Ht, app_assoc.
        split; [done|by apply silent_on_app].
Qed.

(** Over a whole loop, an identifier gets at most one alert and at most
    one write, and the reset marker is not touched. *)
Lemma verification_loop_once (all_found : gmap string Product)
    (futures : list future) (processed : gset string) (m : Monitor) (c : string) :
  let m' := monitor_of (verification_loop repr_container telegram all_found
                          futures processed m) in
  ∃ new,
    trace m' = trace m ++ new ∧
    last_reset_date m' = last_reset_date m ∧
    Spec.resets new = [] ∧
    (length (List.filter (Spec.alert_for c) new) ≤ 1)%nat ∧
    (length (List.filter (Spec.update_of c) new) ≤ 1)%nat.
Proof.
  revert processed m.
  induction futures as [|[raw v] futures IH]; intros processed m; simpl.
  - exists []. rewrite app_nil_r. repeat split; auto.
  - case_decide as Hseen; [apply IH|].
    destruct (lookup_product all_found raw) as [product|e]; simpl.
    2:{ exists []. rewrite app_nil_r. repeat split; auto. }
    set (code := clean repr_container raw).
    set (m1 := handle_result repr_container telegram product code v m).
    destruct (handle_result_frame product code v m)
      as (new & Ht & Hd & Hr & Ha & Hu & Hframe). fold m1 in Ht, Hd.
    destruct (decide (c = code)) as [->|Hne].
    + destruct (verification_loop_inert all_found futures ({[code]} ∪ processed)
                  m1 code) as [_ (new' & Ht' & Hsil)]; [left; apply seen_self|].
      destruct (IH ({[code]} ∪ processed) m1) as (new'' & Ht'' & Hd'' & Hr'' & _).
      rewrite Ht' in Ht''. apply app_inv_head in Ht''. subst new''.
      exists (new ++ new'). rewrite Ht', Ht, app_assoc, Hd'', Hd.
      rewrite resets_app, Hr, Hr'', !List.filter_app, !length_app.
      rewrite (silent_on_alerts _ _ Hsil), (silent_on_updates _ _ Hsil). simpl.
      repeat split; auto; lia.
    + destruct (Hframe c Hne) as [_ Hsil].
      destruct (IH ({[code]} ∪ processed) m1) as (new' & Ht' & Hd' & Hr' & Ha' & Hu').
      exists (new ++ new'). rewrite Ht', Ht, app_assoc, Hd', Hd.
      rewrite resets_app, Hr, Hr', !List.filter_app, !length_app.
      rewrite (silent_on_alerts _ _ Hsil), (silent_on_updates _ _ Hsil). simpl.
      repeat split; auto.
Qed.

End Facts.

(** C1.  In the verification phase of a cycle, a product whose
    verification meets HTTP 403 gets the "unknown" result ([None] as stock
    flag); no alert is sent for it and its record in the state store is
    left as it was, so a record that said in stock still says so when the
    loop ends, however it ends. *)
Theorem unknown_result_changes_nothing (rc : value → string)
    (search_state : string → option string) (json_loads : string → option value)
    (telegram : list event → string → value → option string → bool)
    (http_get : string → Verifier.reply) (all_found : gmap string Product)
    (futures : list future) (processed : gset string) (m : Monitor) (c : string) :
  (∀ raw v, (raw, v) ∈ futures → clean rc raw = c →
     v = Verifier.verify_stock rc http_get search_state json_loads raw ∧
     ∃ text, http_get (Verifier.detail_url rc raw) = Verifier.Response 403 text) →
  let m' := monitor_of (verification_loop rc telegram all_found futures
                          processed m) in
  stock_state m' !! c = stock_state m !! c ∧
  prev_state c m' = prev_state c m ∧
  ∃ new, trace m' = trace m ++ new ∧
         List.filter (Spec.alert_for c) new = [] ∧
         List.filter (Spec.update_of c) new = [].
Proof.
  intros H m'.
  destruct (verification_loop_inert rc telegram all_found futures processed m c)
    as [Hs (new & Ht & Hsil)].
  { right. intros raw v Hin Hc. destruct (H raw v Hin Hc) as [-> [text Hget]].
    by rewrite (VerifierFacts.verify_stock_403 _ _ _ _ _ _ Hget). }
  fold m' in Hs, Ht. split; [done|]. split.
  - unfold prev_state. by rewrite Hs.
  - exists new. split; [done|].
    split; [by apply silent_on_alerts|by apply silent_on_updates].
Qed.

(** The theorem on a store that has A1 in stock, when the detail page of
    A1 answers 403. *)
Lemma unknown_result_changes_nothing_witness :
  let v := Verifier.verify_stock Scenario.no_repr (Scenario.serve 403 "")
             Scenario.search_nothing Scenario.loads_nothing (VStr "A1") in
  let m' := monitor_of (verification_loop Scenario.no_repr Scenario.telegram_up
                          Scenario.found_A1 [(VStr "A1", v)] ∅
                          Scenario.monitor_A1_in_stock) in
  v = (None, "403") ∧ prev_state "A1" m' = true.
Proof.
  intros v m'. split; [reflexivity|].
  destruct (unknown_result_changes_nothing Scenario.no_repr
              Scenario.search_nothing Scenario.loads_nothing
              Scenario.telegram_up (Scenario.serve 403 "") Scenario.found_A1
              [(VStr "A1", v)] ∅ Scenario.monitor_A1_in_stock "A1")
    as (_ & Hprev & _).
  - intros raw w Hin _. apply list_elem_of_singleton in Hin.
    injection Hin as -> ->. split; [reflexivity|]. by exists "".
  - fold m' in Hprev. rewrite Hprev. reflexivity.
Defined.

Section Transitions.

Variable rc : value → string.
Variable telegram : list event → string → value → option string → bool.
Variable all_found : gmap string Product.

(** One step of the loop on an identifier not yet seen in the cycle. *)
Lemma verification_loop_step (raw : value) (v : Verifier.verdict)
    (rest : list future) (processed : gset string) (m : Monitor)
    (product : Product) :
  clean rc raw ∉ processed →
  lookup_product all_found raw = Ok product →
  verification_loop rc telegram all_found ((raw, v) :: rest) processed m
  = verification_loop rc telegram all_found rest
      ({[clean rc raw]} ∪ processed)
      (handle_result rc telegram product (clean rc raw) v m).
Proof.
  intros Hc Hp. simpl. rewrite decide_False by done. by rewrite Hp.
Qed.

(** A result for an identifier already seen is skipped, wherever it comes
    in the rest of the completion sequence. *)
Lemma verification_loop_skip (l2 l3 : list future) (raw' : value)
    (v' : Verifier.verdict) (processed : gset string) (m : Monitor) :
  clean rc raw' ∈ processed →
  verification_loop rc telegram all_found (l2 ++ (raw', v') :: l3) processed m
  = verification_loop rc telegram all_found (l2 ++ l3) processed m.
Proof.
  revert processed m.
  induction l2 as [|[raw v] l2 IH]; intros processed m Hseen; simpl.
  - by rewrite decide_True.
  - case_decide; [by apply IH|].
    destruct (lookup_product all_found raw); [|done].
    apply IH. by apply seen_mono.
Qed.

End Transitions.

(** C9.  Within a cycle, a second result for the same trimmed identifier
    is a no-op: the loop ends exactly as it does without the duplicate.
    Whatever the completion sequence, an identifier gets at most one alert
    and at most one write of its record. *)
Theorem duplicate_result_is_noop (rc : value → string)
    (telegram : list event → string → value → option string → bool)
    (all_found : gmap string Product) (l1 l2 l3 : list future)
    (raw raw' : value) (v v' : Verifier.verdict) (processed : gset string)
    (m : Monitor) :
  clean rc raw' = clean rc raw →
  let with_duplicate := l1 ++ (raw, v) :: l2 ++ (raw', v') :: l3 in
  verification_loop rc telegram all_found with_duplicate processed m
  = verification_loop rc telegram all_found (l1 ++ (raw, v) :: l2 ++ l3)
      processed m ∧
  ∀ c, ∃ new,
    trace (monitor_of (verification_loop rc telegram all_found with_duplicate
                         processed m)) = trace m ++ new ∧
    (length (List.filter (Spec.alert_for c) new) ≤ 1)%nat ∧
    (length (List.filter (Spec.update_of c) new) ≤ 1)%nat.
Proof.
  intros Heq with_duplicate. split.
  - unfold with_duplicate. clear with_duplicate. revert processed m.
    induction l1 as [|[r w] l1 IH]; intros processed m; simpl.
    + case_decide as Hseen.
      * apply verification_loop_skip. by rewrite Heq.
      * destruct (lookup_product all_found raw); [|done].
        apply verification_loop_skip. rewrite Heq. apply seen_self.
    + case_decide; [apply IH|].
      destruct (lookup_product all_found r); [apply IH|done].
  - intros c.
    destruct (verification_loop_once rc telegram all_found with_duplicate
                processed m c) as (new & Ht & _ & _ & Ha & Hu).
    by exists new.
Qed.

(** The theorem on A1 completing twice, once as "A1" and once as " A1 ":
    one alert. *)
Lemma duplicate_result_is_noop_witness :
  let futures := [(VStr "A1", (Some true, "S (1)")); (VStr " A1 ", (Some true, "S (1)"))] in
  verification_loop Scenario.no_repr Scenario.telegram_up Scenario.found_A1
    futures ∅ Scenario.monitor_empty
  = verification_loop Scenario.no_repr Scenario.telegram_up Scenario.found_A1
      [(VStr "A1", (Some true, "S (1)"))] ∅ Scenario.monitor_empty.
Proof.
  intros futures.
  exact (proj1 (duplicate_result_is_noop Scenario.no_repr Scenario.telegram_up
                  Scenario.found_A1 [] [] [] (VStr "A1") (VStr " A1 ")
                  (Some true, "S (1)") (Some true, "S (1)") ∅
                  Scenario.monitor_empty eq_refl)).
Defined.

(** C2.  When the result of a product says in stock and its record does
    not, one alert is sent; the store records [in_stock: true] for the
    identifier exactly when the send returns true.  When the send fails
    the store keeps what it had for the identifier, which creates no entry
    for an identifier it did not know.  This is the state of the store when
    the loop ends, however it ends. *)
Theorem restock_recorded_iff_delivered (rc : value → string)
    (telegram : list event → string → value → option string → bool)
    (all_found : gmap string Product) (raw : value) (d : string)
    (rest : list future) (processed : gset string) (m : Monitor)
    (product : Product) :
  clean rc raw ∉ processed →
  lookup_product all_found raw = Ok product →
  prev_state (clean rc raw) m = false →
  let c := clean rc raw in
  let msg := alert_message rc product d in
  let delivered := telegram (trace m) msg (image product) (Some (category product)) in
  let m' := monitor_of (verification_loop rc telegram all_found
                          ((raw, (Some true, d)) :: rest) processed m) in
  stock_state m' !! c
  = (if delivered then Some {| in_stock := true; details := Some d |}
     else stock_state m !! c) ∧
  prev_state c m' = delivered ∧
  ∃ new, trace m' = trace m ++
                    Sent (Some c) msg (image product) (Some (category product))
                      delivered :: new ∧
         List.filter (Spec.alert_for c) new = [].
Proof.
  intros Hc Hp Hprev. cbv zeta.
  rewrite (verification_loop_step _ _ _ _ _ _ _ _ _ Hc Hp).
  set (c := clean rc raw) in *.
  set (msg := alert_message rc product d).
  set (delivered := telegram (trace m) msg (image product) (Some (category product))).
  set (m1 := handle_result rc telegram product c (Some true, d) m).
  destruct (verification_loop_inert rc telegram all_found rest
              ({[c]} ∪ processed) m1 c) as [Hs (new & Ht & Hsil)];
    [left; apply seen_self|].
  assert (stock_state m1 !! c
          = (if delivered then Some {| in_stock := true; details := Some d |}
             else stock_state m !! c) ∧
          ∃ saved, trace m1 = trace m ++
                   Sent (Some c) msg (image product) (Some (category product))
                     delivered :: saved ∧
                   List.filter (Spec.alert_for c) saved = []) as [Hs1 (saved & Ht1 & Hsaved)].
  { unfold m1, handle_result. simpl. rewrite Hprev. simpl.
    fold msg. fold delivered. destruct delivered; simpl.
    - split; [by rewrite lookup_insert_eq|].
      eexists [_]. rewrite <- app_assoc. done.
    - split; [done|]. by exists []. }
  split; [by rewrite Hs, Hs1|]. split.
  - unfold prev_state in *. rewrite Hs, Hs1.
    destruct delivered; [done|]. done.
  - exists (saved ++ new). rewrite Ht, Ht1, <- app_assoc. split; [done|].
    by rewrite List.filter_app, Hsaved, (silent_on_alerts _ _ Hsil).
Qed.

(** The theorem on an unknown identifier and a Telegram side that is
    down: no entry is created. *)
Lemma restock_recorded_iff_delivered_witness :
  let m' := monitor_of (verification_loop Scenario.no_repr Scenario.telegram_down
                          Scenario.found_A1 [(VStr "A1", (Some true, "S (1)"))] ∅
                          Scenario.monitor_empty) in
  stock_state m' !! "A1" = None ∧ prev_state "A1" m' = false.
Proof.
  intros m'.
  destruct (restock_recorded_iff_delivered Scenario.no_repr Scenario.telegram_down
              Scenario.found_A1 (VStr "A1") "S (1)" [] ∅ Scenario.monitor_empty
              (Scenario.product_of "A1" "Men")) as (Hs & Hprev & _).
  - apply not_elem_of_empty.
  - reflexivity.
  - reflexivity.
  - fold m' in Hs, Hprev. split; [exact Hs|exact Hprev].
Defined.

(** C7.  When the result of a product says not in stock and its record
    says in stock, the record is set to [in_stock: false] and the store is
    saved at once; no alert is sent for the identifier, and nothing of
    this depends on the Telegram side.  The record is still so when the
    loop ends, however it ends. *)
Theorem out_of_stock_recorded (rc : value → string)
    (telegram : list event → string → value → option string → bool)
    (all_found : gmap string Product) (raw : value) (d : string)
    (rest : list future) (processed : gset string) (m : Monitor)
    (product : Product) :
  clean rc raw ∉ processed →
  lookup_product all_found raw = Ok product →
  prev_state (clean rc raw) m = true →
  let c := clean rc raw in
  let cleared := {| in_stock := false; details := None |} in
  let m' := monitor_of (verification_loop rc telegram all_found
                          ((raw, (Some false, d)) :: rest) processed m) in
  stock_state m' !! c = Some cleared ∧
  ∃ new, trace m' = trace m ++
                    Saved (Some c) (<[c := cleared]> (stock_state m)) :: new ∧
         Spec.silent_on c new.
Proof.
  intros Hc Hp Hprev. cbv zeta.
  rewrite (verification_loop_step _ _ _ _ _ _ _ _ _ Hc Hp).
  set (c := clean rc raw) in *.
  set (cleared := {| in_stock := false; details := None |}).
  set (m1 := handle_result rc telegram product c (Some false, d) m).
  destruct (verification_loop_inert rc telegram all_found rest
              ({[c]} ∪ processed) m1 c) as [Hs (new & Ht & Hsil)];
    [left; apply seen_self|].
  assert (stock_state m1 = <[c := cleared]> (stock_state m) ∧
          trace m1 = trace m ++ [Saved (Some c) (<[c := cleared]> (stock_state m))])
    as [Hs1 Ht1].
  { unfold m1, handle_result. simpl. by rewrite Hprev. }
  split.
  - by rewrite Hs, Hs1, lookup_insert_eq.
  - exists new. by rewrite Ht, Ht1, <- app_assoc.
Qed.

(** The theorem on a store that has A1 in stock, with the Telegram side
    down. *)
Lemma out_of_stock_recorded_witness :
  let m' := monitor_of (verification_loop Scenario.no_repr Scenario.telegram_down
                          Scenario.found_A1 [(VStr "A1", (Some false, "Out of Stock"))]
                          ∅ Scenario.monitor_A1_in_stock) in
  stock_state m' !! "A1" = Some {| in_stock := false; details := None |}.
Proof.
  intros m'.
  destruct (out_of_stock_recorded Scenario.no_repr Scenario.telegram_down
              Scenario.found_A1 (VStr "A1") "Out of Stock" [] ∅
              Scenario.monitor_A1_in_stock (Scenario.product_of "A1" "Men"))
    as (Hs & _).
  - apply not_elem_of_empty.
  - reflexivity.
  - reflexivity.
  - exact Hs.
Defined.

End LoopFacts.

(** ** The daily reset *)

Module ResetFacts.
Import Py Parser Loop PyFacts LoopFacts.

Local Open Scope list_scope.

Section Facts.

Variable rc : value → string.
Variable search_state : string → option string.
Variable json_loads : string → option value.
Variable telegram : list event → string → value → option string → bool.

(** The reset block, when it is due: the announcement goes to both
    destinations, the store is emptied and saved, the marker takes the
    date of the cycle. *)
Lemma daily_reset_due (date hour : Z) (m : Monitor) :
  reset_due date hour m = true →
  let m' := daily_reset telegram date hour m in
  stock_state m' = ∅ ∧
  last_reset_date m' = Some date ∧
  ∃ b1 b2,
    trace m' = trace m ++
               [DailyReset date;
                Sent None GOOD_MORNING VNone None b1;
                Sent None GOOD_MORNING VNone (Some "Women") b2;
                Saved None ∅].
Proof.
  intros Hdue. unfold daily_reset. rewrite Hdue. simpl.
  split; [done|]. split; [done|].
  eexists _, _. by rewrite <- !app_assoc.
Qed.

Lemma daily_reset_not_due (date hour : Z) (m : Monitor) :
  reset_due date hour m = false → daily_reset telegram date hour m = m.
Proof. intros Hdue. unfold daily_reset. by rewrite Hdue. Qed.

(** The reset dates and the marker after the reset block. *)
Lemma daily_reset_marker (date hour : Z) (m : Monitor) :
  let m' := daily_reset telegram date hour m in
  Spec.resets (trace m')
  = Spec.resets (trace m) ++ (if reset_due date hour m then [date] else []) ∧
  last_reset_date m'
  = (if reset_due date hour m then Some date else last_reset_date m).
Proof.
  destruct (reset_due date hour m) eqn:Hdue; simpl.
  - destruct (daily_reset_due date hour m Hdue) as (_ & Hd & b1 & b2 & Ht).
    by rewrite Ht, Hd, resets_app.
  - rewrite (daily_reset_not_due date hour m Hdue). by rewrite app_nil_r.
Qed.

(** The rest of a cycle does not touch the marker and runs no reset. *)
Lemma cycle_marker (w : World) (m : Monitor) :
  let m' := monitor_of (cycle rc search_state json_loads telegram w m) in
  Spec.resets (trace m')
  = Spec.resets (trace m) ++
    (if reset_due (now_date w) (now_hour w) m then [now_date w] else []) ∧
  last_reset_date m'
  = (if reset_due (now_date w) (now_hour w) m then Some (now_date w)
     else last_reset_date m).
Proof.
  unfold cycle.
  destruct (daily_reset_marker (now_date w) (now_hour w) m) as [Hr Hd].
  set (m0 := daily_reset telegram (now_date w) (now_hour w) m) in *.
  destruct (discover rc w MONITORED_GENDERS ∅) as [all_found|e]; simpl; [|done].
  case_decide; simpl; [done|].
  destruct (verification_loop_once rc telegram all_found
              (completion_order w (submit_all rc search_state json_loads w all_found))
              ∅ m0 "") as (new & Ht & Hd' & Hr' & _).
  by rewrite Ht, resets_app, Hr', app_nil_r, Hd'.
Qed.

(** Over cycles that meet non-decreasing dates, the reset dates stay
    distinct. *)
Lemma cycles_resets_distinct (ws : list World) (m : Monitor) :
  StronglySorted Z.le (map now_date ws) →
  (∀ d, last_reset_date m = Some d → Forall (Z.le d) (map now_date ws)) →
  (∀ d, d ∈ Spec.resets (trace m) →
        ∃ d', last_reset_date m = Some d' ∧ d ≤ d') →
  NoDup (Spec.resets (trace m)) →
  NoDup (Spec.resets
           (trace (monitor_of (cycles rc search_state json_loads telegram ws m)))).
Proof.
  revert m. induction ws as [|w ws IH]; intros m Hsorted Hnext Hpast Hnodup;
    simpl; [done|].
  destruct (cycle_marker w m) as [Hr Hd].
  set (o := cycle rc search_state json_loads telegram w m) in *.
  simpl in Hsorted. apply StronglySorted_inv in Hsorted as [Hsorted Hle].
  assert (NoDup (Spec.resets (trace (monitor_of o))) ∧
          (∀ d, last_reset_date (monitor_of o) = Some d →
                Forall (Z.le d) (map now_date ws)) ∧
          (∀ d, d ∈ Spec.resets (trace (monitor_of o)) →
                ∃ d', last_reset_date (monitor_of o) = Some d' ∧ d ≤ d'))
    as (Hnodup' & Hnext' & Hpast').
  { rewrite Hr, Hd. unfold reset_due in *.
    destruct (now_hour w =? 7); simpl.
    2:{ rewrite app_nil_r. split; [done|]. split; [|done].
        intros d Hm. specialize (Hnext d Hm). simpl in Hnext.
        by apply Forall_cons in Hnext as [_ ?]. }
    case_bool_decide as Hm; simpl.
    { rewrite app_nil_r. split; [done|]. split; [|done].
      intros d Hm'. specialize (Hnext d Hm'). simpl in Hnext.
      by apply Forall_cons in Hnext as [_ ?]. }
    assert (∀ d, d ∈ Spec.resets (trace m) → d < now_date w) as Hlt.
    { intros d Hin. destruct (Hpast d Hin) as (d' & Hd' & Hdd').
      specialize (Hnext d' Hd'). simpl in Hnext.
      apply Forall_cons in Hnext as [Hnow _].
      assert (d' ≠ now_date w) by congruence. lia. }
    split; [|split].
    - apply NoDup_app. split; [done|]. split; [|apply NoDup_singleton].
      intros d Hin ->%list_elem_of_singleton. specialize (Hlt _ Hin). lia.
    - intros d [= <-]. done.
    - intros d [Hin| ->%list_elem_of_singleton]%elem_of_app.
      + exists (now_date w). split; [done|]. specialize (Hlt _ Hin). lia.
      + exists (now_date w). split; [done|lia]. }
  destruct o as [m1|m1 e]; simpl in *; [|done].
  by apply IH.
Qed.

End Facts.

(** C5.  In every run of the control loop whose cycles meet non-decreasing
    local dates, the daily reset runs at most once per calendar date: the
    dates on which it ran are pairwise distinct.  In each cycle it runs
    exactly when the local hour is 7 and the date differs from the marker,
    so it runs in the first such cycle of a date and, the marker then being
    that date, in no later cycle of the hour; when it runs it announces on
    both destinations, empties the store and saves it. *)
Theorem daily_reset_once_per_date (rc : value → string)
    (search_state : string → option string) (json_loads : string → option value)
    (telegram : list event → string → value → option string → bool)
    (loaded : gmap string StockRecord) (ws : list World) :
  StronglySorted Z.le (map now_date ws) →
  NoDup (Spec.resets
           (trace (monitor_of (run rc search_state json_loads telegram loaded ws)))) ∧
  ∀ w m,
    let due := (now_hour w =? 7) &&
               negb (bool_decide (last_reset_date m = Some (now_date w))) in
    let m0 := daily_reset telegram (now_date w) (now_hour w) m in
    let m' := monitor_of (cycle rc search_state json_loads telegram w m) in
    Spec.resets (trace m')
    = Spec.resets (trace m) ++ (if due then [now_date w] else []) ∧
    last_reset_date m' = (if due then Some (now_date w) else last_reset_date m) ∧
    if due then
      stock_state m0 = ∅ ∧
      ∃ b1 b2,
        trace m0 = trace m ++
                   [DailyReset (now_date w);
                    Sent None GOOD_MORNING VNone None b1;
                    Sent None GOOD_MORNING VNone (Some "Women") b2;
                    Saved None ∅]
    else m0 = m.
Proof.
  intros Hsorted. split.
  - unfold run. apply cycles_resets_distinct; simpl.
    + done.
    + by intros d [=].
    + by intros d ?%elem_of_nil.
    + constructor.
  - intros w m due m0 m'.
    destruct (cycle_marker rc search_state json_loads telegram w m) as [Hr Hd].
    split; [done|]. split; [done|].
    destruct due eqn:Hdue.
    + destruct (daily_reset_due telegram _ _ m Hdue) as (Hs & _ & Ht).
      by split.
    + by apply daily_reset_not_due.
Qed.

(** The theorem on three cycles, two within hour 7 of day 100 and one in
    hour 7 of day 101: the reset ran once on each date. *)
Lemma daily_reset_once_per_date_witness :
  let ws := [Scenario.quiet_world 100 7; Scenario.quiet_world 100 7;
             Scenario.quiet_world 101 7] in
  let t := trace (monitor_of (run Scenario.no_repr Scenario.search_nothing
                                Scenario.loads_nothing Scenario.telegram_up ∅ ws)) in
  Spec.resets t = [100; 101] ∧ NoDup (Spec.resets t).
Proof.
  intros ws t. split; [reflexivity|].
  apply (daily_reset_once_per_date Scenario.no_repr Scenario.search_nothing
           Scenario.loads_nothing Scenario.telegram_up ∅ ws).
  repeat constructor; simpl; lia.
Defined.

End ResetFacts.

(** ** The lookup by raw identifier *)

Module LookupFacts.
Import Py Parser Loop PyFacts LoopFacts.

Local Open Scope list_scope.

Lemma key_eqb_str (k : value) (s : string) :
  key_eqb k (VStr s) = true → k = VStr s.
Proof.
  destruct k as [|[]| |t| |]; simpl; try done.
  by intros ->%String.eqb_eq.
Qed.

Section Facts.

Variable rc : value → string.
Variable search_state : string → option string.
Variable json_loads : string → option value.
Variable telegram : list event → string → value → option string → bool.

Lemma merge_products_trimmed (prods : products) (all_found : gmap string Product) :
  Forall Spec.keyed prods →
  Spec.trimmed_keys all_found →
  Spec.trimmed_keys (merge_products rc prods all_found).
Proof.
  unfold merge_products. intros Hprods. revert all_found.
  induction Hprods as [|[k p] prods [Hh Hk] _ IH]; intros all_found Hall; simpl;
    [done|].
  apply IH. apply map_Forall_insert_2; [|done]. simpl in *.
  split; [apply strip_idem|]. split; [done|].
  intros s Hs. rewrite Hs in Hk. by rewrite (key_eqb_str _ _ Hk).
Qed.

Lemma discover_trimmed (w : World) (genders : list string)
    (all_found all_found' : gmap string Product) :
  discover rc w genders all_found = Ok all_found' →
  Spec.trimmed_keys all_found →
  Spec.trimmed_keys all_found'.
Proof.
  revert all_found. induction genders as [|g genders IH]; intros all_found; simpl.
  - by intros [= <-].
  - intros (prods & Hp & H)%bind_Ok Hall.
    eapply IH; [done|]. apply merge_products_trimmed; [|done].
    by eapply DiscoveryFacts.fetch_products_keyed.
Qed.

(** When every lookup succeeds the loop runs to its end. *)
Lemma verification_loop_finishes (all_found : gmap string Product)
    (futures : list future) (processed : gset string) (m : Monitor) :
  (∀ raw v, (raw, v) ∈ futures → ∃ p, lookup_product all_found raw = Ok p) →
  ∃ m', verification_loop rc telegram all_found futures processed m = Finished m'.
Proof.
  revert processed m.
  induction futures as [|[raw v] futures IH]; intros processed m Hok; simpl;
    [by eexists|].
  assert (∀ raw' v', (raw', v') ∈ futures →
                     ∃ p, lookup_product all_found raw' = Ok p) as Htail.
  { intros raw' v' Hin. eapply Hok. by right. }
  case_decide; [by apply IH|].
  destruct (Hok raw v) as [p ->]; [by left|]. by apply IH.
Qed.

(** When the futures of some identifier not yet seen all fail their
    lookup, the loop is left by a [KeyError]. *)
Lemma verification_loop_crashes (all_found : gmap string Product)
    (futures : list future) (processed : gset string) (m : Monitor) (c : string) :
  (∀ raw v e, (raw, v) ∈ futures →
              lookup_product all_found raw = Raise e → e = KeyError) →
  c ∉ processed →
  (∃ raw v, (raw, v) ∈ futures ∧ clean rc raw = c) →
  (∀ raw v, (raw, v) ∈ futures → clean rc raw = c →
            lookup_product all_found raw = Raise KeyError) →
  ∃ m', verification_loop rc telegram all_found futures processed m
        = Crashed m' KeyError.
Proof.
  revert processed m.
  induction futures as [|[raw v] futures IH];
    intros processed m Hkey Hc (raw0 & v0 & Hin & Hraw0) Hbad; simpl.
  { by apply elem_of_nil in Hin. }
  assert (clean rc raw ≠ c → ∃ raw' v', (raw', v') ∈ futures ∧ clean rc raw' = c)
    as Htail.
  { intros Hne. exists raw0, v0. split; [|done].
    apply elem_of_cons in Hin as [[= -> ->]|Hin]; [done|done]. }
  assert (∀ raw' v' e, (raw', v') ∈ futures →
                       lookup_product all_found raw' = Raise e → e = KeyError)
    as Hkey'.
  { intros raw' v' e Hin'. eapply Hkey. by right. }
  assert (∀ raw' v', (raw', v') ∈ futures → clean rc raw' = c →
                     lookup_product all_found raw' = Raise KeyError) as Hbad'.
  { intros raw' v' Hin'. eapply Hbad. by right. }
  case_decide as Hseen.
  - apply IH; try done. apply Htail. congruence.
  - destruct (lookup_product all_found raw) as [p|e] eqn:Hp.
    + assert (clean rc raw ≠ c) as Hne.
      { intros Heq. rewrite (Hbad raw v) in Hp; [done|by left|done]. }
      apply IH; try done; [by apply unseen_other|by apply Htail].
    + rewrite (Hkey raw v e); [by eexists|by left|done].
Qed.

(** The futures submitted are those of the products found. *)
Lemma submit_all_elem (w : World) (all_found : gmap string Product)
    (raw : value) (v : Verifier.verdict) :
  (raw, v) ∈ submit_all rc search_state json_loads w all_found →
  ∃ k p, all_found !! k = Some p ∧ raw = code p.
Proof.
  unfold submit_all. intros ([k p] & [= -> _] & Hin)%list_elem_of_fmap.
  exists k, p. split; [|done]. by apply elem_of_map_to_list in Hin.
Qed.

Lemma submit_all_found (w : World) (all_found : gmap string Product)
    (k : string) (p : Product) :
  all_found !! k = Some p →
  ∃ v, (code p, v) ∈ submit_all rc search_state json_loads w all_found.
Proof.
  intros Hk. eexists. unfold submit_all.
  apply list_elem_of_fmap. exists (k, p). split; [done|].
  by apply elem_of_map_to_list.
Qed.

(** In a mapping with trimmed keys, the lookup of an identifier that is a
    trimmed text succeeds, and any other lookup raises [KeyError]. *)
Lemma lookup_product_trimmed (all_found : gmap string Product) (k : string)
    (p : Product) :
  Spec.trimmed_keys all_found →
  all_found !! k = Some p →
  match code p with
  | VStr s => if decide (strip s = s)
              then lookup_product all_found (code p) = Ok p
              else lookup_product all_found (code p) = Raise KeyError
  | _ => lookup_product all_found (code p) = Raise KeyError
  end.
Proof.
  intros Hall Hk. destruct (Hall k p Hk) as (Hkk & Hh & Hs).
  unfold lookup_product. rewrite Hh.
  destruct (code p) as [| | |s| |] eqn:Hc; try done.
  specialize (Hs s eq_refl). case_decide as Htrim.
  - by rewrite <- Htrim, <- Hs, Hk.
  - destruct (all_found !! s) as [p'|] eqn:Hs'; [|done].
    destruct (Hall s p' Hs') as (Hss & _). done.
Qed.

End Facts.

(** C10, as amended.  The verification loop looks a completed product up
    by its raw identifier in the merged mapping, which is keyed by trimmed
    identifiers, outside the [try].  When every product of the mapping has
    a text identifier equal to its trimmed form, every lookup succeeds and
    the cycle ends normally.  When a product of the mapping (a product
    found that no later product with the same trimmed identifier has
    overwritten in the merge) has an identifier with white space at an
    end, the lookup raises a [KeyError] that leaves the cycle and the
    whole loop, whatever the completion order. *)
Theorem raw_lookup_needs_trimmed_identifiers (rc : value → string)
    (search_state : string → option string) (json_loads : string → option value)
    (telegram : list event → string → value → option string → bool)
    (w : World) (ws : list World) (m : Monitor)
    (all_found : gmap string Product) :
  discover rc w MONITORED_GENDERS ∅ = Ok all_found →
  completion_order w (submit_all rc search_state json_loads w all_found)
    ≡ₚ submit_all rc search_state json_loads w all_found →
  ((∀ k p, all_found !! k = Some p → ∃ s, code p = VStr s ∧ strip s = s) →
   ∃ m', cycle rc search_state json_loads telegram w m = Finished m') ∧
  (∀ k p s, all_found !! k = Some p → code p = VStr s → strip s ≠ s →
     ∃ m', cycle rc search_state json_loads telegram w m = Crashed m' KeyError ∧
           cycles rc search_state json_loads telegram (w :: ws) m
           = Crashed m' KeyError).
Proof.
  intros Hdisc Hperm.
  assert (Spec.trimmed_keys all_found) as Hall.
  { eapply discover_trimmed; [done|]. apply map_Forall_empty. }
  set (futures := completion_order w
                    (submit_all rc search_state json_loads w all_found)) in *.
  assert (∀ raw v, (raw, v) ∈ futures →
                   ∃ k p, all_found !! k = Some p ∧ raw = code p) as Hfut.
  { intros raw v Hin. rewrite Hperm in Hin. by eapply submit_all_elem. }
  split.
  - intros Htrim. unfold cycle. rewrite Hdisc. case_decide; [by eexists|].
    fold futures. apply verification_loop_finishes.
    intros raw v (k & p & Hk & ->)%Hfut.
    destruct (Htrim k p Hk) as (s & Hs & Hss).
    pose proof (lookup_product_trimmed all_found k p Hall Hk) as Hl.
    rewrite Hs in Hl. rewrite decide_True in Hl by done.
    exists p. by rewrite Hs.
  - intros k p s Hk Hs Hss.
    assert (∃ m', cycle rc search_state json_loads telegram w m
                  = Crashed m' KeyError) as [m' Hm'].
    2:{ exists m'. split; [done|]. simpl. by rewrite Hm'. }
    unfold cycle. rewrite Hdisc.
    rewrite decide_False by (intros ->; by rewrite lookup_empty in Hk).
    fold futures.
    destruct (Hall k p Hk) as (_ & _ & Hkey). specialize (Hkey s Hs).
    apply (verification_loop_crashes rc telegram all_found futures ∅ _ (strip s)).
    + intros raw v e (k' & p' & Hk' & ->)%Hfut Hl.
      pose proof (lookup_product_trimmed all_found k' p' Hall Hk') as Hl'.
      destruct (code p'); try congruence. case_decide; congruence.
    + apply not_elem_of_empty.
    + destruct (submit_all_found rc search_state json_loads w all_found k p Hk)
        as [v Hv].
      exists (code p), v. split; [by rewrite Hperm|].
      by rewrite Hs.
    + intros raw v (k' & p' & Hk' & ->)%Hfut Hc.
      pose proof (lookup_product_trimmed all_found k' p' Hall Hk') as Hl'.
      destruct (Hall k' p' Hk') as (_ & _ & Hkey').
      destruct (code p') as [| | |s'| |] eqn:Hs'; try done.
      case_decide as Htrim; [|done].
      exfalso. specialize (Hkey' s' eq_refl).
      unfold clean in Hc. simpl in Hc.
      assert (k' = k) as -> by congruence.
      assert (p' = p) as -> by congruence.
      congruence.
Qed.

(** The theorem in a world whose listing has the identifier " A1". *)
Lemma raw_lookup_needs_trimmed_identifiers_witness :
  ∃ m', cycles Scenario.no_repr Scenario.search_nothing Scenario.loads_nothing
          Scenario.telegram_up
          [Scenario.world_untrimmed; Scenario.quiet_world 100 13]
          Scenario.monitor_empty
        = Crashed m' KeyError.
Proof.
  destruct (raw_lookup_needs_trimmed_identifiers Scenario.no_repr
              Scenario.search_nothing Scenario.loads_nothing Scenario.telegram_up
              Scenario.world_untrimmed [Scenario.quiet_world 100 13]
              Scenario.monitor_empty Scenario.found_untrimmed)
    as [_ H].
  - reflexivity.
  - reflexivity.
  - destruct (H "A1" Scenario.product_untrimmed " A1") as (m' & _ & Hm').
    + reflexivity.
    + reflexivity.
    + discriminate.
    + by exists m'.
Defined.

(** C10 as stated fails: the listing has " A1" and then "A1"; both are
    parsed, the first has a space before its identifier, the merge keeps
    the second under "A1", and no lookup raises: the cycle ends
    normally. *)
Lemma untrimmed_identifier_overwritten :
  (∃ r r',
     Discovery.fetch_products_for_gender Scenario.no_repr
       Scenario.net_overwritten id "Men"
     = Ok [(VStr " A1", r); (VStr "A1", r')] ∧
     code r = VStr " A1" ∧ strip " A1" ≠ " A1") ∧
  discover Scenario.no_repr Scenario.world_overwritten MONITORED_GENDERS ∅
  = Ok {[ "A1" := {| code := VStr "A1"; name := VStr "Unknown Product";
                     price := VStr "N/A"; image := VStr "";
                     url := SHEIN_BASE_URL +:+ "/p/A1"; category := "Men" |} ]} ∧
  ∃ m',
    cycles Scenario.no_repr Scenario.search_nothing Scenario.loads_nothing
      Scenario.telegram_up [Scenario.world_overwritten] Scenario.monitor_empty
    = Finished m'.
Proof.
  split; [|split].
  - eexists _, _. split; [reflexivity|]. split; [reflexivity|discriminate].
  - reflexivity.
  - eexists. reflexivity.
Qed.

End LookupFacts.

(** ** A whole cycle *)

Module EndToEnd.
Import Py Parser Loop.

(** The first end-to-end scenario of the specification: one alert, for A
    only, and the store holds A with its sizes and nothing for B. *)
Example cycle_alerts_for_A_only :
  ∃ m' text,
    cycle Scenario.no_repr Scenario.search_AB Scenario.loads_AB
      Scenario.telegram_up Scenario.world_AB Scenario.monitor_empty
    = Finished m' ∧
    stock_state m'
    = {[ "A" := {| in_stock := true; details := Some "S (4), M (2)" |} ]} ∧
    trace m' = [Sent (Some "A") text (VStr "") (Some "Men") true;
                Saved (Some "A") (stock_state m')].
Proof. eexists _, _. split; [vm_compute; reflexivity|]. split; reflexivity. Qed.

(** The second one: the detail page of A1 answers 403 while the store has
    A1 in stock; nothing is sent and the record stays. *)
Example cycle_unknown_keeps_record :
  let w := {| now_date := 100; now_hour := 12;
              net := fun gender page _ =>
                if String.eqb gender "Men" && (page =? 1)
                then Discovery.Response 200 (Some (Scenario.listing ["A1"]))
                else Discovery.Response 500 None;
              page_order := id;
              http_get := Scenario.serve 403 "";
              completion_order := id |} in
  cycle Scenario.no_repr Scenario.search_nothing Scenario.loads_nothing
    Scenario.telegram_up w Scenario.monitor_A1_in_stock
  = Finished Scenario.monitor_A1_in_stock.
Proof. vm_compute. reflexivity. Qed.

End EndToEnd.

(** ** The notifier *)

Module NotifierFacts.
Import Py Notifier Props.

Local Open Scope list_scope.

Lemma all_refused_snoc (post : nat → request → reply) (reqs : list request)
    (req : request) :
  all_refused post reqs →
  accepted (post (length reqs) req) = false →
  all_refused post (reqs ++ [req]).
Proof.
  intros Hall Hreq i r Hi.
  apply lookup_app_Some in Hi as [Hi|[Hlen Hi]]; [by eapply Hall|].
  apply list_lookup_singleton_Some in Hi as [Hi ->].
  by replace i with (length reqs) by lia.
Qed.

Section Facts.

Variable post : nat → request → reply.

Lemma text_attempts_outcome (to : channel) (text : string) (made : list request)
    (left : nat) :
  all_refused post made →
  let r := text_attempts post to text made left in
  (length r.2 ≤ length made + left)%nat ∧
  if r.1 then
    ∃ init req, r.2 = init ++ [req] ∧ all_refused post init ∧
                accepted (post (length init) req) = true
  else all_refused post r.2 ∧ length r.2 = (length made + left)%nat.
Proof.
  revert made. induction left as [|left IH]; intros made Hmade; simpl.
  - split; [lia|]. split; [done|lia].
  - destruct (post (length made) (SendMessage to text)) as [c| |] eqn:Hp;
      [destruct (c =? 200) eqn:Hc|..]; simpl.
    + rewrite length_app. simpl. split; [lia|].
      exists made, (SendMessage to text). by rewrite Hp; simpl.
    + destruct (IH (made ++ [SendMessage to text])) as [Hlen Hrest].
      { apply all_refused_snoc; [done|]. by rewrite Hp. }
      rewrite length_app in Hlen. simpl in Hlen. split; [lia|].
      destruct (text_attempts _ _ _ _ _).1; [done|].
      destruct Hrest as [? Hl]. split; [done|].
      rewrite Hl, length_app. simpl. lia.
    + rewrite length_app. simpl. split; [lia|].
      exists made, (SendMessage to text). by rewrite Hp.
    + destruct (IH (made ++ [SendMessage to text])) as [Hlen Hrest].
      { apply all_refused_snoc; [done|]. by rewrite Hp. }
      rewrite length_app in Hlen. simpl in Hlen. split; [lia|].
      destruct (text_attempts _ _ _ _ _).1; [done|].
      destruct Hrest as [? Hl]. split; [done|].
      rewrite Hl, length_app. simpl. lia.
Qed.

Lemma photo_attempts_outcome (to : channel) (text : string) (photo_url : value)
    (made : list request) (attempt left : nat) :
  all_refused post made →
  let r := photo_attempts post to text photo_url made attempt left in
  (length r.2 ≤ length made + (if (attempt =? 0)%nat then left `max` 4 else left))%nat ∧
  if r.1 then
    ∃ init req, r.2 = init ++ [req] ∧ all_refused post init ∧
                accepted (post (length init) req) = true
  else all_refused post r.2 ∧ (length made + left `min` 3 ≤ length r.2)%nat.
Proof.
  revert made attempt. induction left as [|left IH]; intros made attempt Hmade.
  - simpl. split; [destruct (attempt =? 0)%nat; lia|]. split; [done|lia].
  - cbn [photo_attempts]. cbv zeta.
    set (req := SendPhoto to photo_url (caption_of text)).
    assert (accepted (post (length made) req) = false →
            all_refused post (made ++ [req])) as Hsnoc
      by (by apply all_refused_snoc).
    assert (∀ r : bool * list request,
              (length r.2 ≤ length (made ++ [req]) + left)%nat ∧
              (if r.1 then
                 ∃ init req0, r.2 = init ++ [req0] ∧ all_refused post init ∧
                              accepted (post (length init) req0) = true
               else all_refused post r.2 ∧
                    (length (made ++ [req]) + left `min` 3 ≤ length r.2)%nat) →
              (length r.2 ≤ length made
                            + (if (attempt =? 0)%nat then S left `max` 4 else S left))%nat ∧
              (if r.1 then
                 ∃ init req0, r.2 = init ++ [req0] ∧ all_refused post init ∧
                              accepted (post (length init) req0) = true
               else all_refused post r.2 ∧
                    (length made + S left `min` 3 ≤ length r.2)%nat)) as Hnext.
    { intros r [Hlen Hrest]. rewrite length_app in Hlen, Hrest.
      cbn [length] in Hlen, Hrest.
      split; [destruct (attempt =? 0)%nat; lia|].
      destruct r.1; [done|]. destruct Hrest. split; [done|lia]. }
    destruct (post (length made) req) as [c| |] eqn:Hp;
      [destruct (c =? 200) eqn:Hc; [|destruct (c =? 429) eqn:Hc'];
       [| |destruct (attempt =? 0)%nat eqn:Ha]|..]; cbn [fst snd].
    + rewrite length_app. cbn [length]. split; [destruct (attempt =? 0)%nat; lia|].
      exists made, req. by rewrite ?Hp; simpl.
    + apply Hnext, (IH (made ++ [req]) (S attempt)), Hsnoc. by rewrite ?Hp; simpl.
    + assert (all_refused post (made ++ [req])) as Hall
        by (apply Hsnoc; by rewrite ?Hp; simpl).
      pose proof (text_attempts_outcome to text (made ++ [req]) 3 Hall) as H.
      cbv zeta in H.
      destruct (text_attempts post to text (made ++ [req]) 3) as [ok reqs].
      cbn [fst snd] in *. rewrite length_app in H. cbn [length] in H.
      destruct H as [Hlen Hrest]. split; [lia|].
      destruct ok; [done|]. destruct Hrest as [? Hl]. split; [done|lia].
    + apply Hnext, (IH (made ++ [req]) (S attempt)), Hsnoc. by rewrite ?Hp; simpl.
    + rewrite length_app. cbn [length]. split; [destruct (attempt =? 0)%nat; lia|].
      exists made, req. by rewrite ?Hp.
    + apply Hnext, (IH (made ++ [req]) (S attempt)), Hsnoc. by rewrite ?Hp.
Qed.

(** Both loops, from the start of a call. *)
Lemma send_outcome (text : string) (photo_url : value) (gender : option string) :
  let r := send_telegram_message post text photo_url gender in
  (length r.2 ≤ (if truthy photo_url then 4 else 3))%nat ∧
  if r.1 then
    ∃ init req, r.2 = init ++ [req] ∧ all_refused post init ∧
                accepted (post (length init) req) = true
  else all_refused post r.2 ∧ (3 ≤ length r.2)%nat.
Proof.
  unfold send_telegram_message.
  assert (all_refused post []) as Hnil by (intros i req Hi; done).
  destruct (truthy photo_url).
  - pose proof (photo_attempts_outcome (pick_channel gender) text photo_url
                  [] 0 3 Hnil) as H. cbv zeta in *.
    destruct (photo_attempts post (pick_channel gender) text photo_url [] 0 3)
      as [ok reqs]. cbn [fst snd length Nat.eqb] in *.
    destruct H as [Hlen Hrest]. split; [lia|].
    destruct ok; [done|]. destruct Hrest. split; [done|lia].
  - pose proof (text_attempts_outcome (pick_channel gender) text [] 3 Hnil) as H.
    cbv zeta in *.
    destruct (text_attempts post (pick_channel gender) text [] 3) as [ok reqs].
    cbn [fst snd length] in *.
    destruct H as [Hlen Hrest]. split; [lia|].
    destruct ok; [done|]. destruct Hrest. split; [done|lia].
Qed.

End Facts.

(** A call without photo that starts after the requests [pre] is the same
    call from the start, against the replies that are left. *)
Lemma text_attempts_shift (post : nat → request → reply) (to : channel)
    (text : string) (pre made : list request) (left : nat) :
  text_attempts post to text (pre ++ made) left
  = let r := text_attempts (fun i => post (length pre + i)%nat) to text made left in
    (r.1, pre ++ r.2).
Proof.
  revert made. induction left as [|left IH]; intros made; simpl; [done|].
  rewrite length_app.
  destruct (post _ _) as [c| |]; [destruct (c =? 200)|..]; simpl;
    rewrite ?app_assoc; try done; rewrite <- app_assoc; apply IH.
Qed.

(** Every request of a loop without photo is a [sendMessage] to the
    destination, with the whole text. *)
Lemma text_attempts_requests (post : nat → request → reply) (to : channel)
    (text : string) (made : list request) (left : nat) (P : request → Prop) :
  Forall P made → P (SendMessage to text) →
  Forall P (text_attempts post to text made left).2.
Proof.
  intros Hmade Hreq. revert made Hmade.
  induction left as [|left IH]; intros made Hmade; simpl; [done|].
  assert (Forall P (made ++ [SendMessage to text])) as Hnext
    by (apply Forall_app; split; [done|by constructor]).
  destruct (post _ _) as [c| |]; [destruct (c =? 200)|..]; simpl; auto.
Qed.

Lemma photo_attempts_requests (post : nat → request → reply) (to : channel)
    (text : string) (photo_url : value) (made : list request)
    (attempt left : nat) (P : request → Prop) :
  Forall P made →
  P (SendPhoto to photo_url (caption_of text)) →
  (attempt = 0%nat → P (SendMessage to text)) →
  Forall P (photo_attempts post to text photo_url made attempt left).2.
Proof.
  intros Hmade Hphoto Htext. revert made attempt Hmade Htext.
  induction left as [|left IH]; intros made attempt Hmade Htext;
    cbn [photo_attempts]; [done|].
  assert (Forall P (made ++ [SendPhoto to photo_url (caption_of text)])) as Hnext
    by (apply Forall_app; split; [done|by constructor]).
  destruct (post _ _) as [c| |];
    [destruct (c =? 200); [|destruct (c =? 429);
       [|destruct (attempt =? 0)%nat eqn:Ha]]|..];
    cbn [snd]; try done; try (by apply IH).
  apply text_attempts_requests; [done|]. apply Htext. by apply Nat.eqb_eq.
Qed.

Lemma photo_attempts_step (post : nat → request → reply) (to : channel)
    (text : string) (photo_url : value) (made : list request)
    (attempt left : nat) :
  photo_attempts post to text photo_url made attempt (S left)
  = let req := SendPhoto to photo_url (caption_of text) in
    match post (length made) req with
    | Status status_code =>
        if status_code =? 200 then (true, made ++ [req])
        else if status_code =? 429 then
          photo_attempts post to text photo_url (made ++ [req]) (S attempt) left
        else if (attempt =? 0)%nat then
          text_attempts post to text (made ++ [req]) 3
        else photo_attempts post to text photo_url (made ++ [req]) (S attempt) left
    | ReadTimeout => (true, made ++ [req])
    | Failure =>
        photo_attempts post to text photo_url (made ++ [req]) (S attempt) left
    end.
Proof. reflexivity. Qed.

(** The cut keeps the first [n] characters: it is a prefix of the text
    and has [n] characters, or all of them when the text has fewer. *)
Lemma take_chars_count (n : nat) (s : string) :
  char_count (take_chars n s) = (n `min` char_count s)%nat.
Proof.
  revert n. induction s as [|c s IH]; intros n; simpl; [lia|].
  destruct (is_continuation c) eqn:Hc.
  - simpl. rewrite Hc. apply IH.
  - destruct n; simpl; [done|]. rewrite Hc, IH. lia.
Qed.

Lemma take_chars_prefix (n : nat) (s : string) :
  String.prefix (take_chars n s) s = true.
Proof.
  revert n. induction s as [|c s IH]; intros n; simpl; [done|].
  destruct (is_continuation c); [|destruct n; [done|]]; simpl;
    (destruct (Ascii.ascii_dec c c); [apply IH|done]).
Qed.

(** X1.  One call of [send_telegram_message] makes at most four POST
    requests, and at most three when it has no photo to send. *)
Theorem send_makes_at_most_four_requests (post : nat → request → reply)
    (text : string) (photo_url : value) (gender : option string) :
  let reqs := (send_telegram_message post text photo_url gender).2 in
  (length reqs ≤ 4)%nat ∧ (truthy photo_url = false → length reqs ≤ 3)%nat.
Proof.
  destruct (send_outcome post text photo_url gender) as [Hlen _].
  cbv zeta. destruct (truthy photo_url); split; try done; lia.
Qed.

(** X2.  [send_telegram_message] returns [True] exactly when the last
    request it made was answered with status 200 or ran into a read
    timeout, everything before having been refused: nothing is posted
    after a success or a timeout.  It returns [False] only after at least
    three requests, all refused. *)
Theorem send_result_is_last_reply (post : nat → request → reply)
    (text : string) (photo_url : value) (gender : option string) :
  let r := send_telegram_message post text photo_url gender in
  if r.1 then
    ∃ init req, r.2 = init ++ [req] ∧ all_refused post init ∧
                accepted (post (length init) req) = true
  else all_refused post r.2 ∧ (3 ≤ length r.2)%nat.
Proof. apply send_outcome. Qed.

(** X3.  When the first request of a call with a photo is answered with
    a status other than 200 and 429, the call goes on as the call without
    photo: its result is that of sending the text alone, against the
    replies that follow. *)
Theorem photo_failure_falls_back_to_text (post : nat → request → reply)
    (text : string) (photo_url : value) (gender : option string) (c : Z) :
  truthy photo_url = true →
  post 0%nat (SendPhoto (pick_channel gender) photo_url (caption_of text))
  = Status c →
  c ≠ 200 → c ≠ 429 →
  send_telegram_message post text photo_url gender
  = let r := send_telegram_message (fun i => post (S i)) text VNone gender in
    (r.1, SendPhoto (pick_channel gender) photo_url (caption_of text) :: r.2).
Proof.
  intros Hphoto Hp Hc Hc'. unfold send_telegram_message. rewrite Hphoto.
  cbn [photo_attempts truthy length]. rewrite Hp.
  rewrite (proj2 (Z.eqb_neq _ _) Hc), (proj2 (Z.eqb_neq _ _) Hc').
  cbn [Nat.eqb app].
  apply (text_attempts_shift post (pick_channel gender) text
           [SendPhoto (pick_channel gender) photo_url (caption_of text)] [] 3).
Qed.

(** X4.  Every request of a call goes to the destination chosen by the
    gender (the Women channel for "Women" and only for it), carries the
    text whole as a message or cut to its first 1024 characters as a
    caption (a prefix of the text with 1024 characters, or the whole text
    when it has fewer), and a photo request carries the photo given. *)
Theorem send_requests_are_addressed (post : nat → request → reply)
    (text : string) (photo_url : value) (gender : option string) :
  (pick_channel gender = WomenChannel ↔ gender = Some "Women") ∧
  Forall (fun req =>
            match req with
            | SendPhoto to photo caption =>
                to = pick_channel gender ∧ photo = photo_url ∧
                caption = caption_of text ∧
                String.prefix caption text = true ∧
                char_count caption = (1024 `min` char_count text)%nat
            | SendMessage to t => to = pick_channel gender ∧ t = text
            end)
         (send_telegram_message post text photo_url gender).2.
Proof.
  split.
  - unfold pick_channel. destruct gender as [g|]; [|done].
    destruct (String.eqb g "Women") eqn:Hg.
    + apply String.eqb_eq in Hg as ->. done.
    + apply String.eqb_neq in Hg. split; [done|]. by intros [= ->].
  - unfold send_telegram_message. destruct (truthy photo_url).
    + apply photo_attempts_requests; [constructor| |done].
      split; [done|]. split; [done|]. split; [done|].
      split; [apply take_chars_prefix|apply take_chars_count].
    + by apply text_attempts_requests; [constructor|].
Qed.

(** The cut counts characters, not bytes: the emoji of an alert is one
    character of four bytes. *)
Example caption_counts_characters :
  take_chars 2 "🎉ab" = "🎉a" ∧ char_count "🎉ab" = 3%nat ∧
  String.length "🎉ab" = 6%nat.
Proof. done. Qed.

(** X5.  The fall-back to text belongs to the first attempt only: when
    the first photo request is rate-limited (429) or raises, every request
    of the call is a photo request, whatever the later replies. *)
Theorem later_photo_failures_do_not_fall_back (post : nat → request → reply)
    (text : string) (photo_url : value) (gender : option string) :
  truthy photo_url = true →
  post 0%nat (SendPhoto (pick_channel gender) photo_url (caption_of text))
    = Status 429 ∨
  post 0%nat (SendPhoto (pick_channel gender) photo_url (caption_of text))
    = Failure →
  Forall (fun req => match req with SendPhoto _ _ _ => True | _ => False end)
         (send_telegram_message post text photo_url gender).2.
Proof.
  intros Hphoto Hp. unfold send_telegram_message. rewrite Hphoto.
  rewrite photo_attempts_step. cbv zeta. cbn [length].
  destruct Hp as [-> | ->].
  - change (429 =? 200) with false. change (429 =? 429) with true. cbv iota.
    apply photo_attempts_requests; [by repeat constructor|done|done].
  - apply photo_attempts_requests; [by repeat constructor|done|done].
Qed.

(** X3 on an API that refuses photos: one photo request, then the text,
    which is taken. *)
Lemma photo_failure_falls_back_to_text_witness :
  send_telegram_message Cases.post_photo_refused "Back in stock"
    (VStr "https://img/1.jpg") (Some "Women")
  = (true, [SendPhoto WomenChannel (VStr "https://img/1.jpg") "Back in stock";
            SendMessage WomenChannel "Back in stock"]).
Proof.
  etrans;
    [apply (photo_failure_falls_back_to_text Cases.post_photo_refused
              "Back in stock" (VStr "https://img/1.jpg") (Some "Women") 400);
     [reflexivity|reflexivity|lia|lia]
    |reflexivity].
Defined.

(** X5 on an API that rate-limits the first request and refuses the
    others: three photo requests, no text. *)
Lemma later_photo_failures_do_not_fall_back_witness :
  (send_telegram_message Cases.post_rate_limited "Back in stock"
     (VStr "https://img/1.jpg") None).1 = false ∧
  Forall (fun req => match req with SendPhoto _ _ _ => True | _ => False end)
         (send_telegram_message Cases.post_rate_limited "Back in stock"
            (VStr "https://img/1.jpg") None).2.
Proof.
  split; [reflexivity|].
  apply (later_photo_failures_do_not_fall_back Cases.post_rate_limited
           "Back in stock" (VStr "https://img/1.jpg") None);
    [reflexivity|left; reflexivity].
Defined.

End NotifierFacts.

(** ** The session *)

Module SessionFacts.
Import Session Props.

Section Facts.

Variable choice : nat → impersonation.
Variable get_root : nat → impersonation → reply.

Lemma init_attempts_outcome (current : option impersonation) (attempt left : nat) :
  let s := init_attempts choice get_root current attempt left in
  if warmed_up s then
    ∃ i, (attempt ≤ i < attempt + left)%nat ∧ attempts_made s = S i ∧
         profile s = Some (choice i) ∧
         warm (get_root i (choice i)) = true ∧
         ∀ j, (attempt ≤ j < i)%nat → warm (get_root j (choice j)) = false
  else
    attempts_made s = (attempt + left)%nat ∧
    profile s = match left with
                | O => current
                | S n => Some (choice (attempt + n)%nat)
                end ∧
    ∀ j, (attempt ≤ j < attempt + left)%nat → warm (get_root j (choice j)) = false.
Proof.
  revert current attempt. induction left as [|left IH]; intros current attempt; simpl.
  - split; [lia|]. split; [done|]. intros j Hj. lia.
  - assert (warm (get_root attempt (choice attempt)) = false →
            let s := init_attempts choice get_root (Some (choice attempt))
                       (S attempt) left in
            if warmed_up s then
              ∃ i, (attempt ≤ i < attempt + S left)%nat ∧ attempts_made s = S i ∧
                   profile s = Some (choice i) ∧
                   warm (get_root i (choice i)) = true ∧
                   ∀ j, (attempt ≤ j < i)%nat → warm (get_root j (choice j)) = false
            else
              attempts_made s = (attempt + S left)%nat ∧
              profile s = Some (choice (attempt + left)%nat) ∧
              ∀ j, (attempt ≤ j < attempt + S left)%nat →
                   warm (get_root j (choice j)) = false) as Hnext.
    { intros Hcold. specialize (IH (Some (choice attempt)) (S attempt)).
      cbv zeta in *.
      destruct (warmed_up (init_attempts _ _ _ _ _)).
      - destruct IH as (i & Hi & Hm & Hp & Hw & Hbefore).
        exists i. repeat split; try done; try lia.
        intros j Hj. destruct (decide (j = attempt)) as [->|Hne]; [done|].
        apply Hbefore. lia.
      - destruct IH as (Hm & Hp & Hall). split; [lia|]. split.
        + rewrite Hp. destruct left; [by rewrite Nat.add_0_r|].
          f_equal. f_equal. lia.
        + intros j Hj. destruct (decide (j = attempt)) as [->|Hne]; [done|].
          apply Hall. lia. }
    destruct (get_root attempt (choice attempt)) as [c|] eqn:Hg;
      [destruct (c =? 200) eqn:Hc|]; simpl.
    + exists attempt. split; [lia|]. split; [done|]. split; [done|].
      split; [by rewrite Hg|]. intros j Hj. lia.
    + by apply Hnext.
    + by apply Hnext.
Qed.

End Facts.

(** X6.  [init_session] makes at most ten warm-up requests and stops at
    the first one answered with status 200; the session then keeps the
    browser profile drawn for that attempt.  After ten attempts without a
    200 it gives up, leaving the profile of the tenth attempt in place. *)
Theorem init_session_stops_at_first_200 (choice : nat → impersonation)
    (get_root : nat → impersonation → reply) :
  let s := init_session choice get_root in
  (attempts_made s ≤ 10)%nat ∧
  if warmed_up s then
    ∃ i, attempts_made s = S i ∧ profile s = Some (choice i) ∧
         warm (get_root i (choice i)) = true ∧
         ∀ j, (j < i)%nat → warm (get_root j (choice j)) = false
  else
    attempts_made s = 10%nat ∧ profile s = Some (choice 9%nat) ∧
    ∀ j, (j < 10)%nat → warm (get_root j (choice j)) = false.
Proof.
  pose proof (init_attempts_outcome choice get_root None 0 max_attempts) as H.
  unfold init_session. cbv zeta in *.
  destruct (warmed_up (init_attempts _ _ _ _ _)).
  - destruct H as (i & Hi & Hm & Hp & Hw & Hbefore). unfold max_attempts in Hi.
    split; [lia|]. exists i. repeat split; try done.
    intros j Hj. apply Hbefore. lia.
  - destruct H as (Hm & Hp & Hall). unfold max_attempts in *. simpl in *.
    split; [lia|]. repeat split; try done. intros j Hj. apply Hall. lia.
Qed.

End SessionFacts.

(** ** Pages of the listing *)

Module PageFacts.
Import Py Discovery.

Lemma fetch_attempts_first_usable (replies : nat → reply) (attempt left i : nat)
    (data : value) :
  (attempt ≤ i < attempt + left)%nat →
  replies i = Response 200 (Some data) →
  (∀ j, (attempt ≤ j < i)%nat → Spec.usable (replies j) = false) →
  fetch_attempts replies attempt left = data.
Proof.
  revert attempt. induction left as [|left IH]; intros attempt Hi Hr Hbefore;
    [lia|]. simpl.
  destruct (decide (i = attempt)) as [->|Hne].
  - by rewrite Hr.
  - assert (Spec.usable (replies attempt) = false) as Hu by (apply Hbefore; lia).
    rewrite (IH (S attempt)); [|lia|done|intros j Hj; apply Hbefore; lia].
    destruct (replies attempt) as [c [d|]|]; simpl in *; [by rewrite Hu| |done].
    by destruct (c =? 200).
Qed.

(** X7.  [fetch_page] returns the decoded body of the first of its three
    attempts that is answered with status 200 and decodes: a page that
    fails and then answers within the three attempts is not lost. *)
Theorem fetch_page_returns_first_usable (net : string → Z → nat → reply)
    (page : Z) (gender : string) (i : nat) (data : value) :
  (i < 3)%nat →
  net gender page i = Response 200 (Some data) →
  (∀ j, (j < i)%nat → Spec.usable (net gender page j) = false) →
  fetch_page net page gender = data.
Proof.
  intros Hi Hr Hbefore. unfold fetch_page.
  apply (fetch_attempts_first_usable _ 0 MAX_RETRIES i); [unfold MAX_RETRIES; lia|done|].
  intros j Hj. apply Hbefore. lia.
Qed.

(** X7 on a page answered 403, then by a network error, then with a
    listing. *)
Lemma fetch_page_returns_first_usable_witness :
  fetch_page (fun _ _ i => match i with
                           | O => Response 403 None
                           | 1%nat => NetworkError
                           | _ => Response 200 (Some (Scenario.listing ["A1"]))
                           end) 1 "Men"
  = Scenario.listing ["A1"].
Proof.
  apply (fetch_page_returns_first_usable _ 1 "Men" 2); [lia|reflexivity|].
  intros j Hj. destruct j as [|[|j]]; [reflexivity|reflexivity|lia].
Defined.

End PageFacts.

(** ** Records and mappings of the discovery *)

Module RecordFacts.
Import Py Parser Discovery PyFacts Props.

Local Open Scope list_scope.

(** [dict_set] keeps a property of the keys that the key assigned has. *)
Lemma dict_set_keys_Forall (Q : value → Prop) (k : value) (v : Product)
    (d : products) :
  Forall (fun kr => Q kr.1) d → Q k → Forall (fun kr => Q kr.1) (dict_set k v d).
Proof.
  intros Hd Hk. induction Hd as [|[k' v'] d HQ Hd IH]; simpl.
  - by repeat constructor.
  - destruct (key_eqb k' k); by constructor.
Qed.

Lemma dict_set_distinct (k : value) (v : Product) (d : products) :
  distinct_keys d → distinct_keys (dict_set k v d).
Proof.
  induction d as [|[k' v'] d IH]; simpl; [by repeat constructor|].
  intros [Hk' Hd]. destruct (key_eqb k' k) eqn:E; simpl; [done|].
  split; [|by apply IH].
  by apply (dict_set_keys_Forall (fun x => key_eqb k' x = false)).
Qed.

(** Assigning the same binding twice is assigning it once. *)
Lemma dict_set_idem (k : value) (v : Product) (d : products) :
  hashable k = true → dict_set k v (dict_set k v d) = dict_set k v d.
Proof.
  intros Hk. induction d as [|[k' v'] d IH]; simpl.
  - by rewrite ParserFacts.key_eqb_refl.
  - destruct (key_eqb k' k) eqn:E; simpl; rewrite E; [done|by rewrite IH].
Qed.

Section Facts.

Variable rc : value → string.

(** What the parser does to the mapping does not depend on the mapping:
    it leaves every mapping alone, or binds one and the same record in
    every mapping. *)
Lemma parse_product_update (p : value) (d d' : products) (gender : string) :
  _parse_product rc p d gender = Ok d' →
  (d' = d ∧ ∀ d0, _parse_product rc p d0 gender = Ok d0) ∨
  ∃ fields mrp img u,
    p = VDict fields ∧
    let c := default VNone (assoc "code" fields) in
    let r := {| code := c; name := Spec.listed_name fields; price := mrp;
                image := img; url := u; category := gender |} in
    truthy c = true ∧ hashable c = true ∧
    parse_mrp p = Ok mrp ∧ parse_image p = Ok img ∧ parse_url rc p c = Ok u ∧
    d' = dict_set c r d ∧
    ∀ d0, _parse_product rc p d0 gender = Ok (dict_set c r d0).
Proof.
  unfold _parse_product. intros H.
  destruct p as [| | | | |fields]; try discriminate.
  simpl in *. monad_unfold. simpl in *.
  destruct (truthy (default VNone (assoc "code" fields))) eqn:Hc; simpl in *.
  2:{ left. split; [congruence|done]. }
  right.
  destruct (parse_mrp (VDict fields)) as [mrp|] eqn:Hmrp; [|discriminate].
  destruct (parse_image (VDict fields)) as [img|] eqn:Himg; [|discriminate].
  unfold get_default, get in *. monad_unfold.
  destruct (parse_url rc _ _) as [u|] eqn:Hu; [|discriminate].
  unfold setitem in *.
  destruct (hashable _) eqn:Hh; [|discriminate].
  injection H as <-. exists fields, mrp, img, u. done.
Qed.

(** The image of the record, against the policy. *)
Lemma parse_image_spec (fields : list (string * value)) (img : value) :
  parse_image (VDict fields) = Ok img → img = listed_image fields.
Proof.
  unfold parse_image, has_nested, get_nested, contains, getitem, len, getitem0,
    get_default, get, listed_image, outfit_picture, first_image_url.
  monad_unfold.
  destruct (assoc "fnlColorVariantData" fields) as [x|]; simpl.
  - destruct x as [| | |s|l|x]; simpl; try done.
    + destruct (substring_of _ s); simpl; [done|].
      destruct (assoc "images" fields) as [[| | |[|]|[|[]]|[|]]|]; simpl;
        try done; try (destruct (is_continuation _); simpl; try done);
        try (destruct (0 <? char_count _)%nat; try done);
        congruence.
    + destruct (existsb _ l); simpl; [done|].
      destruct (assoc "images" fields) as [[| | |[|]|[|[]]|[|]]|]; simpl;
        try done; try (destruct (is_continuation _); simpl; try done);
        try (destruct (0 <? char_count _)%nat; try done);
        congruence.
    + destruct (assoc "outfitPictureURL" x); simpl; [congruence|].
      destruct (assoc "images" fields) as [[| | |[|]|[|[]]|[|]]|]; simpl;
        try done; try (destruct (is_continuation _); simpl; try done);
        try (destruct (0 <? char_count _)%nat; try done);
        congruence.
  - destruct (assoc "images" fields) as [[| | |[|]|[|[]]|[|]]|]; simpl;
      try done; try (destruct (is_continuation _); simpl; try done);
        try (destruct (0 <? char_count _)%nat; try done);
      congruence.
Qed.

Lemma prefix_append (a b : string) : String.prefix a (a +:+ b) = true.
Proof.
  induction a as [|c a IH]; simpl; [by destruct b|].
  destruct (Ascii.ascii_dec c c); [done|congruence].
Qed.

Lemma parse_url_spec (fields : list (string * value)) (c : value) (u : string) :
  parse_url rc (VDict fields) c = Ok u →
  u = SHEIN_BASE_URL +:+
      match assoc "url" fields with
      | Some (VStr s) => s
      | _ => "/p/" +:+ str rc c
      end.
Proof.
  unfold parse_url, get_default, get. monad_unfold.
  destruct (assoc "url" fields) as [[| | |s| |]|]; simpl; congruence.
Qed.

(** An invariant of the mapping that the parser keeps is kept by the
    whole discovery of a filter. *)
Section Invariant.

Variable net : string → Z → nat → reply.
Variable gender : string.
Variable I : products → Prop.
Hypothesis parse_keeps :
  ∀ p d d', _parse_product rc p d gender = Ok d' → I d → I d'.

Lemma parse_entries_invariant (entries : list value) (d d' : products) :
  parse_entries rc entries d gender = Ok d' → I d → I d'.
Proof.
  revert d. induction entries as [|p entries IH]; intros d; simpl.
  - by intros [= <-].
  - intros (d1 & H1 & H2)%bind_Ok Hd. eapply IH; [done|]. by eapply parse_keeps.
Qed.

Lemma process_page_invariant (data : value) (d d' : products) :
  process_page rc data d gender = Ok d' → I d → I d'.
Proof.
  unfold process_page. destruct (truthy data); [|by intros [= <-]].
  intros ([|] & _ & H)%bind_Ok.
  - apply bind_Ok in H as (ps & _ & H).
    apply bind_Ok in H as (n & _ & H).
    apply bind_Ok in H as (entries & _ & H).
    by apply (parse_entries_invariant _ _ _ H).
  - by injection H as <-.
Qed.

Lemma process_pages_invariant (pages : list Z) (d d' : products) :
  process_pages rc net pages d gender = Ok d' → I d → I d'.
Proof.
  revert d. induction pages as [|k pages IH]; intros d; simpl.
  - by intros [= <-].
  - intros (d1 & H1 & H2)%bind_Ok Hd.
    eapply IH; [done|]. by eapply process_page_invariant.
Qed.

Lemma fetch_products_invariant (sched : list Z → list Z) (d : products) :
  I [] →
  fetch_products_for_gender rc net sched gender = Ok d → I d.
Proof.
  intros Hnil. unfold fetch_products_for_gender.
  destruct (negb (truthy _)); [by intros [= <-]|].
  intros (total & _ & H)%bind_Ok.
  apply bind_Ok in H as (d1 & H1 & H).
  assert (I d1) as Hd1.
  { unfold process_first_page in H1.
    apply bind_Ok in H1 as ([|] & _ & H1); [|by injection H1 as <-].
    apply bind_Ok in H1 as (ps & _ & H1).
    apply bind_Ok in H1 as (entries & _ & H1).
    by apply (parse_entries_invariant _ _ _ H1). }
  apply bind_Ok in H as ([|] & _ & H).
  - by eapply process_pages_invariant.
  - by injection H as <-.
Qed.

End Invariant.

End Facts.

(** X8.  Whenever the parser stores a record for an entry, its image is
    the outfit picture of the colour variant if there is one, else the
    link of the first image (empty when that image has none), else empty;
    its link is the site's base URL followed by the entry's own path, or
    by "/p/" and the identifier when the entry has none; its category is
    the filter it was found under. *)
Theorem parse_product_fills_record (rc : value → string)
    (fields : list (string * value)) (d d' : products) (gender : string) :
  _parse_product rc (VDict fields) d gender = Ok d' →
  truthy (default VNone (assoc "code" fields)) = true →
  let c := default VNone (assoc "code" fields) in
  ∃ r, d' = dict_set c r d ∧
       image r = listed_image fields ∧
       url r = SHEIN_BASE_URL +:+
               match assoc "url" fields with
               | Some (VStr s) => s
               | _ => "/p/" +:+ str rc c
               end ∧
       category r = gender.
Proof.
  intros H Hc.
  destruct (parse_product_update rc _ d d' gender H)
    as [[_ Hall]|(fields' & mrp & img & u & [= <-] & _ & _ & _ & Himg & Hu & -> & _)].
  - specialize (Hall []). unfold _parse_product, get in Hall. monad_unfold.
    simpl in Hall. rewrite Hc in Hall. simpl in Hall.
    destruct (parse_mrp _); [|done]. destruct (parse_image _); [|done].
    simpl in Hall. unfold get_default, get in Hall. monad_unfold.
    destruct (parse_url _ _ _); [|done]. unfold setitem in Hall.
    destruct (hashable _); [|done]. discriminate.
  - eexists. split; [reflexivity|]. simpl.
    split; [by apply parse_image_spec|]. split; [by apply parse_url_spec|done].
Qed.

(** X8 on an entry with images and no link of its own. *)
Lemma parse_product_fills_record_witness :
  let fields := [("code", VStr "A1");
                 ("images", VList [VDict [("url", VStr "https://img/a1.jpg")]])] in
  ∃ r, _parse_product (fun _ => "") (VDict fields) [] "Women"
       = Ok [(VStr "A1", r)] ∧
       image r = VStr "https://img/a1.jpg" ∧
       url r = "https://www.sheinindia.in/p/A1" ∧
       category r = "Women".
Proof.
  intros fields.
  destruct (parse_product_fills_record (fun _ => "") fields [] _ "Women" eq_refl eq_refl)
    as (r & Hd & Hi & Hu & Hc).
  exists r. injection Hd as Hr. by rewrite <- Hr in *.
Defined.

(** X9.  Parsing an entry again leaves the mapping as the first parse
    left it: the merge of the listing is idempotent. *)
Theorem reparsing_is_idempotent (rc : value → string) (p : value)
    (d d1 : products) (gender : string) :
  _parse_product rc p d gender = Ok d1 →
  _parse_product rc p d1 gender = Ok d1.
Proof.
  intros H.
  destruct (parse_product_update rc p d d1 gender H)
    as [[_ Hall]|(fields & mrp & img & u & _ & _ & Hh & _ & _ & _ & -> & Hall)].
  - apply Hall.
  - rewrite Hall. by rewrite dict_set_idem.
Qed.

(** X9 on an entry listed twice. *)
Lemma reparsing_is_idempotent_witness :
  let p := VDict [("code", VStr "A1"); ("name", VStr "Tee")] in
  ∃ d1, _parse_product (fun _ => "") p [] "Men" = Ok d1 ∧
        _parse_product (fun _ => "") p d1 "Men" = Ok d1.
Proof.
  intros p. eexists. split; [reflexivity|].
  apply (reparsing_is_idempotent (fun _ => "") p [] _ "Men"). reflexivity.
Defined.

(** X10.  The mapping that [fetch_products_for_gender] returns has no two
    records under equal identifiers, and every record in it is tagged with
    the filter asked for and links to the site. *)
Theorem discovery_output_is_deduplicated (rc : value → string)
    (net : string → Z → nat → reply) (sched : list Z → list Z)
    (gender : string) (d : products) :
  fetch_products_for_gender rc net sched gender = Ok d →
  distinct_keys d ∧ Forall (listed_under gender) d.
Proof.
  intros H. split.
  - apply (fetch_products_invariant rc net gender distinct_keys) with sched;
      [|done|done].
    intros p d0 d' Hp Hd0.
    destruct (parse_product_update rc p d0 d' gender Hp)
      as [[-> _]|(fields & mrp & img & u & _ & _ & _ & _ & _ & _ & -> & _)];
      [done|by apply dict_set_distinct].
  - apply (fetch_products_invariant rc net gender (Forall (listed_under gender)))
      with sched; [|constructor|done].
    intros p d0 d' Hp Hd0.
    destruct (parse_product_update rc p d0 d' gender Hp)
      as [[-> _]|(fields & mrp & img & u & -> & _ & Hh & _ & _ & Hu & -> & _)];
      [done|].
    apply ParserFacts.dict_set_Forall; [done| |done].
    intros k' _. split; [done|]. simpl.
    rewrite (parse_url_spec rc _ _ _ Hu). apply prefix_append.
Qed.

(** X10 on a listing that has the identifier A1 twice on page 1. *)
Lemma discovery_output_is_deduplicated_witness :
  ∃ d, fetch_products_for_gender (fun _ => "")
         (fun _ _ _ => Response 200 (Some (Scenario.listing ["A1"; "B2"; "A1"])))
         id "Men" = Ok d ∧
       length d = 2%nat ∧ distinct_keys d ∧ Forall (listed_under "Men") d.
Proof.
  eexists. split; [reflexivity|]. split; [reflexivity|].
  apply (discovery_output_is_deduplicated (fun _ => "")
           (fun _ _ _ => Response 200 (Some (Scenario.listing ["A1"; "B2"; "A1"])))
           id "Men").
  reflexivity.
Defined.

End RecordFacts.

(** ** What the verifier never reports *)

Module VerdictFacts.
Import Py Verifier PyFacts.

Local Open Scope list_scope.

Section Facts.

Variable rc : value → string.

(** The inner block never yields the "unknown" flag, and yields in stock
    only with the path product.productDetails in the state. *)
Lemma inspect_state_flag (state : value) (text : string) (r : verdict) :
  inspect_state rc state text = Ok r →
  r.1 ≠ None ∧
  (r.1 = Some true → ∃ details, Spec.product_details state = Some details).
Proof.
  unfold inspect_state. intros ([|] & Hn & H)%bind_Ok.
  - apply bind_Ok in H as (details & Hd & H).
    apply bind_Ok in H as (variants & _ & H).
    apply bind_Ok in H as (vs & _ & H).
    apply bind_Ok in H as (sizes & _ & H).
    assert (∃ details', Spec.product_details state = Some details') as Hpath.
    { unfold get_nested, getitem, Spec.product_details in *. monad_unfold.
      destruct state as [| | | | |d]; try done.
      destruct (assoc "product" d) as [[| | | | |p]|]; try done.
      destruct (assoc "productDetails" p); [by eexists|done]. }
    destruct sizes; injection H as <-; simpl; split; done.
  - destruct (substring_of _ _); injection H as <-; simpl; split; done.
Qed.

Variable http_get : string → reply.
Variable search_state : string → option string.
Variable json_loads : string → option value.

(** The six ways out of [verify_stock]. *)
Lemma verify_stock_cases (product_code : value) :
  let v := verify_stock rc http_get search_state json_loads product_code in
  (v = (None, "403") ∧
   ∃ text, http_get (detail_url rc product_code) = Response 403 text) ∨
  (v.1 = Some false) ∨
  (v.1 = Some true ∧
   ∃ text blob state details,
     http_get (detail_url rc product_code) = Response 200 text ∧
     search_state text = Some blob ∧
     json_loads blob = Some state ∧
     Spec.product_details state = Some details).
Proof.
  unfold verify_stock.
  destruct (http_get _) as [c text|] eqn:Hg; [|by right; left].
  destruct (c =? 200) eqn:Hc.
  - apply Z.eqb_eq in Hc as ->.
    destruct (search_state text) as [blob|] eqn:Hs; [|by right; left].
    destruct (json_loads blob) as [state|] eqn:Hl; [|by right; left].
    destruct (inspect_state rc state text) as [[[[|]|] d]|] eqn:Hi;
      try (by right; left).
    + right; right. split; [done|].
      destruct (inspect_state_flag _ _ _ Hi) as [_ Hpath].
      destruct (Hpath eq_refl) as [details Hd].
      by exists text, blob, state, details.
    + by destruct (inspect_state_flag _ _ _ Hi) as [Hn _].
  - destruct (c =? 403) eqn:Hc'; [|by right; left].
    apply Z.eqb_eq in Hc' as ->. left. split; [done|by exists text].
Qed.

End Facts.

(** X11.  [verify_stock] reports in stock only for a detail page fetched
    with status 200 whose embedded state is found, decodes and has the
    path product.productDetails: never on an HTTP error, a network error,
    a page without the state, a state that does not decode or one of
    another structure. *)
Theorem in_stock_only_from_a_parsed_page (rc : value → string)
    (http_get : string → reply) (search_state : string → option string)
    (json_loads : string → option value) (product_code : value) :
  (verify_stock rc http_get search_state json_loads product_code).1 = Some true →
  ∃ text blob state details,
    http_get (detail_url rc product_code) = Response 200 text ∧
    search_state text = Some blob ∧
    json_loads blob = Some state ∧
    Spec.product_details state = Some details.
Proof.
  intros H.
  destruct (verify_stock_cases rc http_get search_state json_loads product_code)
    as [[Hv _]|[Hv|[_ Hpage]]]; [|congruence|done].
  rewrite Hv in H. discriminate.
Qed.

(** X11 on the page with sizes S, M and L. *)
Lemma in_stock_only_from_a_parsed_page_witness :
  ∃ details,
    Spec.product_details Scenario.state_three_sizes = Some details.
Proof.
  destruct (in_stock_only_from_a_parsed_page Scenario.no_repr
              (Scenario.serve 200 (Scenario.page_of Scenario.blob_three_sizes))
              (Scenario.search_in Scenario.blob_three_sizes)
              (Scenario.loads_as Scenario.blob_three_sizes Scenario.state_three_sizes)
              (VStr "443318408_blue") eq_refl)
    as (text & blob & state & details & Hg & Hs & Hl & Hd).
  injection Hg as <-. injection Hs as <-. injection Hl as <-. by exists details.
Defined.

(** X12.  The "unknown" result comes from a 403 and from nothing else:
    the stock flag of [verify_stock] is [None] exactly when the detail
    page is answered with status 403, and the result is then (None,
    "403"). *)
Theorem unknown_exactly_on_403 (rc : value → string)
    (http_get : string → reply) (search_state : string → option string)
    (json_loads : string → option value) (product_code : value) :
  let v := verify_stock rc http_get search_state json_loads product_code in
  (v.1 = None ↔ ∃ text, http_get (detail_url rc product_code) = Response 403 text) ∧
  (v.1 = None → v = (None, "403")).
Proof.
  cbv zeta.
  destruct (verify_stock_cases rc http_get search_state json_loads product_code)
    as [[Hv Hget]|[Hv|[Hv (text & blob & state & details & Hg & _)]]].
  - rewrite Hv. split; [done|done].
  - split; [split|]; try congruence.
    intros [text Hget]. unfold verify_stock in Hv. rewrite Hget in Hv. done.
  - split; [split|]; try congruence.
    intros [text' Hget]. congruence.
Qed.

(** X13.  The search for the size label stops at the first qualifier
    tagged "size": it takes that qualifier's value ([None] when it has
    none) and never looks at the qualifiers after it, whatever they
    are. *)
Theorem find_size_stops_at_first_match (before after : list value)
    (q : list (string * value)) :
  Forall (fun b => ∃ d, b = VDict d ∧ tagged_size (assoc "qualifier" d) = false)
         before →
  tagged_size (assoc "qualifier" q) = true →
  find_size (before ++ VDict q :: after) = Ok (default VNone (assoc "value" q)).
Proof.
  intros Hbefore Hq. induction Hbefore as [|b before (d & -> & Hd) _ IH]; simpl.
  - monad_unfold. by rewrite Hq.
  - monad_unfold. by rewrite Hd.
Qed.

(** X13 on qualifiers colour, size, and then something that is no
    object. *)
Lemma find_size_stops_at_first_match_witness :
  find_size [VDict [("qualifier", VStr "color"); ("value", VStr "Blue")];
             VDict [("qualifier", VStr "size"); ("value", VStr "M")];
             VInt 7]
  = Ok (VStr "M").
Proof.
  apply (find_size_stops_at_first_match
           [VDict [("qualifier", VStr "color"); ("value", VStr "Blue")]]
           [VInt 7] [("qualifier", VStr "size"); ("value", VStr "M")]).
  - repeat constructor. by eexists.
  - reflexivity.
Defined.

End VerdictFacts.

(** ** Alerts and the store over a cycle *)

Module StoreFacts.
Import Py Parser Loop PyFacts LoopFacts Props.

Local Open Scope list_scope.

Section Facts.

Variable rc : value → string.
Variable telegram : list event → string → value → option string → bool.

(** The three things that handling a result can do. *)
Lemma handle_result_cases (product : Product) (code : string)
    (v : Verifier.verdict) (m : Monitor) :
  let m' := handle_result rc telegram product code v m in
  m' = m ∨
  (v.1 = Some true ∧ prev_state code m = false ∧
   last_reset_date m' = last_reset_date m ∧
   ∃ delivered,
     trace m' = trace m ++
                Sent (Some code) (alert_message rc product v.2) (image product)
                  (Some (category product)) delivered
                :: (if delivered then [Saved (Some code) (stock_state m')] else []) ∧
     stock_state m'
     = if delivered
       then <[code := {| in_stock := true; details := Some v.2 |}]> (stock_state m)
       else stock_state m) ∨
  (v.1 = Some false ∧ prev_state code m = true ∧
   last_reset_date m' = last_reset_date m ∧
   trace m' = trace m ++ [Saved (Some code) (stock_state m')] ∧
   stock_state m' = <[code := {| in_stock := false; details := None |}]> (stock_state m)).
Proof.
  destruct v as [[[|]|] d]; unfold handle_result; simpl; [| |by left].
  - destruct (prev_state code m) eqn:Hprev; simpl; [by left|].
    right; left. split; [done|]. split; [done|].
    destruct (telegram _ _ _ _) eqn:Ht; simpl; (split; [done|]).
    + exists true. split; [by rewrite <- app_assoc|done].
    + by exists false.
  - destruct (prev_state code m) eqn:Hprev; simpl; [|by left].
    right; right. done.
Qed.

(** X14.  A product that the store already has in stock gets no alert
    in the verification phase, whatever its result is and whatever the
    other results are: the persisted record is what keeps an alert from
    being repeated from cycle to cycle. *)
Theorem no_alert_while_recorded_in_stock (all_found : gmap string Product)
    (futures : list future) (processed : gset string) (m : Monitor) (c : string) :
  prev_state c m = true →
  ∃ new,
    trace (monitor_of (verification_loop rc telegram all_found futures
                         processed m)) = trace m ++ new ∧
    List.filter (Spec.alert_for c) new = [].
Proof.
  revert processed m.
  induction futures as [|[raw v] futures IH]; intros processed m Hprev; simpl.
  - exists []. by rewrite app_nil_r.
  - case_decide as Hseen; [by apply IH|].
    destruct (lookup_product all_found raw) as [product|e]; simpl;
      [|exists []; by rewrite app_nil_r].
    set (code := clean rc raw) in *.
    pose proof (handle_result_cases product code v m) as Hcases.
    cbv zeta in Hcases.
    set (m1 := handle_result rc telegram product code v m) in *.
    destruct (decide (c = code)) as [->|Hne].
    + destruct (verification_loop_inert rc telegram all_found futures
                  ({[code]} ∪ processed) m1 code) as [_ (new' & Ht' & Hsil)];
        [left; apply seen_self|].
      destruct Hcases as [Hm|[(_ & Hp & _)|(_ & _ & _ & Ht & _)]].
      * exists new'. rewrite Ht', Hm. split; [done|by apply silent_on_alerts].
      * congruence.
      * eexists (_ :: new'). rewrite Ht', Ht, <- app_assoc. split; [done|].
        simpl. by apply silent_on_alerts.
    + clear Hcases.
      pose proof (handle_result_frame rc telegram product code v m) as Hfr.
      cbv zeta in Hfr. fold m1 in Hfr.
      destruct Hfr as (new & Ht & _ & _ & _ & _ & Hframe).
      destruct (Hframe c Hne) as [Hs Hsil].
      destruct (IH ({[code]} ∪ processed) m1) as (new' & Ht' & Ha').
      { unfold prev_state in *. by rewrite Hs. }
      exists (new ++ new'). rewrite Ht', Ht, app_assoc. split; [done|].
      by rewrite List.filter_app, (silent_on_alerts _ _ Hsil), Ha'.
Qed.

Lemma accounted_cons (all_found : gmap string Product) (f : future)
    (futures : list future) (e : event) :
  accounted rc all_found futures e → accounted rc all_found (f :: futures) e.
Proof.
  destruct e as [about text photo gender b|about snap|date]; simpl; [| |done].
  - intros (raw & d & product & Hin & H). exists raw, d, product.
    split; [by right|done].
  - intros (raw & flag & d & Hin & H). exists raw, flag, d.
    split; [by right|done].
Qed.

(** X15.  Every alert of the verification phase is the alert of a
    product found whose result says in stock: it is built from that
    product and that result, carries the product's image and goes to the
    channel of the product's category.  Every save follows a result that
    is not "unknown".  The phase runs no reset. *)
Theorem every_alert_is_accounted_for (all_found : gmap string Product)
    (futures : list future) (processed : gset string) (m : Monitor) :
  ∃ new,
    trace (monitor_of (verification_loop rc telegram all_found futures
                         processed m)) = trace m ++ new ∧
    Forall (accounted rc all_found futures) new.
Proof.
  revert processed m.
  induction futures as [|[raw v] futures IH]; intros processed m; simpl.
  - exists []. by rewrite app_nil_r.
  - assert (∀ new, Forall (accounted rc all_found futures) new →
                   Forall (accounted rc all_found ((raw, v) :: futures)) new)
      as Hmono.
    { intros new Hnew. eapply Forall_impl; [exact Hnew|].
      intros e. apply accounted_cons. }
    case_decide as Hseen.
    { destruct (IH processed m) as (new & Ht & Hnew). exists new. auto. }
    destruct (lookup_product all_found raw) as [product|e] eqn:Hp; simpl;
      [|exists []; by rewrite app_nil_r].
    set (code := clean rc raw) in *.
    pose proof (handle_result_cases product code v m) as Hcases.
    cbv zeta in Hcases.
    set (m1 := handle_result rc telegram product code v m) in *.
    destruct (IH ({[code]} ∪ processed) m1) as (new' & Ht' & Hnew').
    destruct Hcases as [Hm|[(Hv & _ & _ & b & Ht & _)|(Hv & _ & _ & Ht & _)]].
    + exists new'. rewrite Ht', Hm. auto.
    + eexists (_ :: _ ++ new'). rewrite Ht', Ht, <- app_assoc. split; [done|].
      destruct v as [flag d]. simpl in Hv. subst flag.
      constructor; [|apply Forall_app; split; [|auto]].
      * simpl. exists raw, d, product. split; [by left|done].
      * destruct b; [|done]. repeat constructor. simpl.
        exists raw, true, d. split; [by left|done].
    + eexists (_ :: new'). rewrite Ht', Ht, <- app_assoc. split; [done|].
      destruct v as [flag d]. simpl in Hv. subst flag.
      constructor; [|auto]. simpl. exists raw, false, d. split; [by left|done].
Qed.

End Facts.

(** X14 on a store that has A1 in stock and a result that says so
    again. *)
Lemma no_alert_while_recorded_in_stock_witness :
  trace (monitor_of (verification_loop Scenario.no_repr Scenario.telegram_up
                       Scenario.found_A1 [(VStr "A1", (Some true, "S (1)"))] ∅
                       Scenario.monitor_A1_in_stock))
  = [].
Proof.
  destruct (no_alert_while_recorded_in_stock Scenario.no_repr Scenario.telegram_up
              Scenario.found_A1 [(VStr "A1", (Some true, "S (1)"))] ∅
              Scenario.monitor_A1_in_stock "A1" eq_refl) as (new & Ht & _).
  reflexivity.
Defined.

End StoreFacts.

(** ** The store and the state file *)

Module PersistFacts.
Import Py Parser Loop PyFacts LoopFacts Props.

Local Open Scope list_scope.

Lemma on_disk_app (file : gmap string StockRecord) (t1 t2 : list event) :
  on_disk file (t1 ++ t2) = on_disk (on_disk file t1) t2.
Proof.
  revert file. induction t1 as [|[] t1 IH]; intros file; simpl; auto.
Qed.

Section Facts.

Variable rc : value → string.
Variable search_state : string → option string.
Variable json_loads : string → option value.
Variable telegram : list event → string → value → option string → bool.

(** The keys of the store after one result. *)
Lemma handle_result_keys (product : Product) (code : string)
    (v : Verifier.verdict) (m : Monitor) (c : string) :
  let m' := handle_result rc telegram product code v m in
  (is_Some (stock_state m !! c) → is_Some (stock_state m' !! c)) ∧
  (is_Some (stock_state m' !! c) →
   is_Some (stock_state m !! c) ∨ (c = code ∧ v.1 = Some true)).
Proof.
  pose proof (StoreFacts.handle_result_cases rc telegram product code v m) as H.
  cbv zeta in *.
  set (m' := handle_result rc telegram product code v m) in *.
  destruct H as [->|[(Hv & _ & _ & b & _ & Hs)|(_ & Hprev & _ & _ & Hs)]].
  - split; [done|by left].
  - rewrite Hs. destruct b; [|split; [done|by left]].
    destruct (decide (code = c)) as [->|Hne].
    + rewrite lookup_insert_eq. split; [by eexists|by right].
    + rewrite lookup_insert_ne by done. split; [done|by left].
  - rewrite Hs. destruct (decide (code = c)) as [->|Hne].
    + rewrite lookup_insert_eq. split; [by eexists|]. intros _. left.
      unfold prev_state in Hprev. by destruct (stock_state m !! c).
    + rewrite lookup_insert_ne by done. split; [done|by left].
Qed.

(** One result keeps the state file equal to the store. *)
Lemma handle_result_on_disk (product : Product) (code : string)
    (v : Verifier.verdict) (m : Monitor) (file : gmap string StockRecord) :
  on_disk file (trace m) = stock_state m →
  let m' := handle_result rc telegram product code v m in
  on_disk file (trace m') = stock_state m'.
Proof.
  intros Hm.
  pose proof (StoreFacts.handle_result_cases rc telegram product code v m) as H.
  cbv zeta in *.
  set (m' := handle_result rc telegram product code v m) in *.
  destruct H as [->|[(_ & _ & _ & b & Ht & Hs)|(_ & _ & _ & Ht & _)]].
  - done.
  - rewrite Ht, on_disk_app. destruct b; simpl; [done|]. by rewrite Hs.
  - by rewrite Ht, on_disk_app.
Qed.

Lemma verification_loop_on_disk (all_found : gmap string Product)
    (futures : list future) (processed : gset string) (m : Monitor)
    (file : gmap string StockRecord) :
  on_disk file (trace m) = stock_state m →
  let m' := monitor_of (verification_loop rc telegram all_found futures
                          processed m) in
  on_disk file (trace m') = stock_state m'.
Proof.
  revert processed m.
  induction futures as [|[raw v] futures IH]; intros processed m Hm; simpl;
    [done|].
  case_decide; [by apply IH|].
  destruct (lookup_product all_found raw) as [product|e]; simpl; [|done].
  apply IH. by apply handle_result_on_disk.
Qed.

Lemma daily_reset_on_disk (date hour : Z) (m : Monitor)
    (file : gmap string StockRecord) :
  on_disk file (trace m) = stock_state m →
  let m' := daily_reset telegram date hour m in
  on_disk file (trace m') = stock_state m'.
Proof.
  intros Hm. cbv zeta. destruct (reset_due date hour m) eqn:Hdue.
  - destruct (ResetFacts.daily_reset_due telegram date hour m Hdue)
      as (Hs & _ & b1 & b2 & Ht).
    by rewrite Ht, Hs, on_disk_app.
  - by rewrite (ResetFacts.daily_reset_not_due telegram date hour m Hdue).
Qed.

Lemma cycle_on_disk (w : World) (m : Monitor) (file : gmap string StockRecord) :
  on_disk file (trace m) = stock_state m →
  let m' := monitor_of (cycle rc search_state json_loads telegram w m) in
  on_disk file (trace m') = stock_state m'.
Proof.
  intros Hm. unfold cycle.
  pose proof (daily_reset_on_disk (now_date w) (now_hour w) m file Hm) as H0.
  cbv zeta in *.
  destruct (discover rc w MONITORED_GENDERS ∅) as [all_found|e]; simpl; [|done].
  case_decide; simpl; [done|]. by apply verification_loop_on_disk.
Qed.

Lemma cycles_on_disk (ws : list World) (m : Monitor)
    (file : gmap string StockRecord) :
  on_disk file (trace m) = stock_state m →
  let m' := monitor_of (cycles rc search_state json_loads telegram ws m) in
  on_disk file (trace m') = stock_state m'.
Proof.
  revert m. induction ws as [|w ws IH]; intros m Hm; simpl; [done|].
  pose proof (cycle_on_disk w m file Hm) as H. cbv zeta in *.
  destruct (cycle rc search_state json_loads telegram w m) as [m1|m1 e];
    simpl in *; [by apply IH|done].
Qed.

End Facts.

(** X16.  The verification loop never removes a key from the store, and
    a key it adds is the trimmed identifier of a product whose result says
    in stock; so a store whose keys are trimmed keeps trimmed keys. *)
Theorem store_keys_after_loop (rc : value → string)
    (telegram : list event → string → value → option string → bool)
    (all_found : gmap string Product) (futures : list future)
    (processed : gset string) (m : Monitor) :
  let m' := monitor_of (verification_loop rc telegram all_found futures
                          processed m) in
  (∀ c, is_Some (stock_state m !! c) → is_Some (stock_state m' !! c)) ∧
  (∀ c, is_Some (stock_state m' !! c) →
        is_Some (stock_state m !! c) ∨
        ∃ raw d, (raw, (Some true, d)) ∈ futures ∧ clean rc raw = c) ∧
  ((∀ c, is_Some (stock_state m !! c) → strip c = c) →
   ∀ c, is_Some (stock_state m' !! c) → strip c = c).
Proof.
  cbv zeta.
  assert ((∀ c, is_Some (stock_state m !! c) →
                is_Some (stock_state (monitor_of (verification_loop rc telegram
                           all_found futures processed m)) !! c)) ∧
          (∀ c, is_Some (stock_state (monitor_of (verification_loop rc telegram
                           all_found futures processed m)) !! c) →
                is_Some (stock_state m !! c) ∨
                ∃ raw d, (raw, (Some true, d)) ∈ futures ∧ clean rc raw = c))
    as [Hkeep Hnew].
  { revert processed m.
    induction futures as [|[raw v] futures IH]; intros processed m; simpl.
    - split; [done|]. intros c Hc. by left.
    - assert (∀ c, (∃ raw' d, (raw', (Some true, d)) ∈ futures ∧ clean rc raw' = c) →
                   ∃ raw' d, (raw', (Some true, d)) ∈ (raw, v) :: futures ∧
                             clean rc raw' = c) as Hmono.
      { intros c (raw' & d & Hin & Hc). exists raw', d. split; [by right|done]. }
      case_decide.
      { destruct (IH processed m) as [Hk Hn]. split; [done|].
        intros c Hc. destruct (Hn c Hc); [by left|right; auto]. }
      destruct (lookup_product all_found raw) as [product|e]; simpl.
      2:{ split; [done|]. intros c Hc. by left. }
      set (code := clean rc raw) in *.
      destruct (IH ({[code]} ∪ processed)
                  (handle_result rc telegram product code v m)) as [Hk Hn].
      split.
      + intros c Hc. apply Hk.
        by apply (handle_result_keys rc telegram product code v m c).
      + intros c Hc. destruct (Hn c Hc) as [Hc'|Hc']; [|right; auto].
        destruct (proj2 (handle_result_keys rc telegram product code v m c) Hc')
          as [?|[-> Hv]]; [by left|right].
        destruct v as [flag d]. simpl in Hv. subst flag.
        exists raw, d. split; [by left|done]. }
  split; [done|]. split; [done|].
  intros Htrim c Hc. destruct (Hnew c Hc) as [Hc'|(raw & d & _ & <-)].
  - by apply Htrim.
  - apply strip_idem.
Qed.

(** X17.  Write-through: from the start of [run], every change of the
    store is followed by a call of [save_state] on the changed store
    before anything else happens to it, so that after any number of
    cycles, and also when an exception leaves the loop, the mapping last
    handed to [save_state] is the store (the mapping loaded when there was
    no such call yet). *)
Theorem state_file_follows_the_store (rc : value → string)
    (search_state : string → option string) (json_loads : string → option value)
    (telegram : list event → string → value → option string → bool)
    (loaded : gmap string StockRecord) (ws : list World) :
  let m' := monitor_of (run rc search_state json_loads telegram loaded ws) in
  on_disk loaded (trace m') = stock_state m'.
Proof.
  unfold run. by apply cycles_on_disk.
Qed.

(** X18.  When page 1 of the listing fails for every filter, the cycle
    ends after the reset check and the discovery: nothing is verified,
    nothing is sent, and the store is as the reset check left it. *)
Theorem outage_cycle_changes_nothing (rc : value → string)
    (search_state : string → option string) (json_loads : string → option value)
    (telegram : list event → string → value → option string → bool)
    (w : World) (m : Monitor) :
  (∀ gender, gender ∈ MONITORED_GENDERS →
             Spec.exhausted (net w gender 1) = true) →
  cycle rc search_state json_loads telegram w m
  = Finished (daily_reset telegram (now_date w) (now_hour w) m).
Proof.
  intros Hdown. unfold cycle.
  assert (discover rc w MONITORED_GENDERS ∅ = Ok ∅) as ->; [|done].
  assert (∀ gender, gender ∈ MONITORED_GENDERS →
            Discovery.fetch_products_for_gender rc (net w) (page_order w) gender
            = Ok []) as Hnone.
  { intros gender Hg. unfold Discovery.fetch_products_for_gender.
    by rewrite (DiscoveryFacts.fetch_page_exhausted _ _ _ (Hdown gender Hg)). }
  unfold MONITORED_GENDERS in *. simpl.
  rewrite (Hnone "Men") by (repeat constructor). simpl.
  rewrite (Hnone "Women") by (repeat constructor). done.
Qed.

(** X18 on a world in which nothing answers. *)
Lemma outage_cycle_changes_nothing_witness :
  cycle Scenario.no_repr Scenario.search_nothing Scenario.loads_nothing
    Scenario.telegram_up (Scenario.quiet_world 100 12) Scenario.monitor_A1_in_stock
  = Finished Scenario.monitor_A1_in_stock.
Proof.
  apply (outage_cycle_changes_nothing Scenario.no_repr Scenario.search_nothing
           Scenario.loads_nothing Scenario.telegram_up (Scenario.quiet_world 100 12)
           Scenario.monitor_A1_in_stock).
  intros gender _. reflexivity.
Defined.

(** X19.  The merge is last-write-wins under trimmed identifiers: a key
    of the merged mapping holds the record of the last product, in the
    order of the listing, whose identifier trims to that key, and what the
    mapping held before when there is none. *)
Theorem merge_products_last_write_wins (rc : value → string) (prods : products)
    (all_found : gmap string Product) (c : string) :
  merge_products rc prods all_found !! c
  = match List.find (fun kp => bool_decide (clean rc kp.1 = c)) (reverse prods) with
    | Some kp => Some kp.2
    | None => all_found !! c
    end.
Proof.
  induction prods as [|[k p] prods IH] using rev_ind; [done|].
  unfold merge_products in *. rewrite foldl_snoc, reverse_snoc. simpl.
  case_bool_decide as Hk.
  - rewrite <- Hk. by rewrite lookup_insert_eq.
  - rewrite lookup_insert_ne by done. apply IH.
Qed.

(** Two identifiers that differ by a no-break space at the end are
    merged under the same key, and the later one stays. *)
Example merge_products_no_break_space :
  merge_products Scenario.no_repr
    [(VStr "A1", Scenario.product_of "A1" "Men");
     (VStr Scenario.A1_nbsp, Scenario.product_of Scenario.A1_nbsp "Men")] ∅
  = {[ "A1" := Scenario.product_of Scenario.A1_nbsp "Men" ]}.
Proof. reflexivity. Qed.

End PersistFacts.

(** ** [clean_state.py] *)

Module CleanStateFacts.
Import Py CleanState PyFacts Props.

Local Open Scope list_scope.

Lemma setitem_elem (k : string) (v : value) (d : list (string * value))
    (k' : string) :
  k' ∈ (setitem k v d).*1 ↔ k' = k ∨ k' ∈ d.*1.
Proof.
  induction d as [|[k0 v0] d IH]; simpl.
  - rewrite list_elem_of_singleton, elem_of_nil. tauto.
  - destruct (String.eqb_spec k0 k) as [->|Hne]; simpl;
      rewrite !elem_of_cons; [tauto|]. rewrite IH. tauto.
Qed.

Lemma setitem_NoDup (k : string) (v : value) (d : list (string * value)) :
  NoDup d.*1 → NoDup (setitem k v d).*1.
Proof.
  induction d as [|[k0 v0] d IH]; simpl; intros Hd.
  - apply NoDup_singleton.
  - destruct (String.eqb_spec k0 k) as [->|Hne]; simpl; [done|].
    apply NoDup_cons in Hd as [Hk0 Hd]. apply NoDup_cons. split; [|auto].
    rewrite setitem_elem. intros [?|?]; [congruence|done].
Qed.

Lemma setitem_fresh (k : string) (v : value) (d : list (string * value)) :
  k ∉ d.*1 → setitem k v d = d ++ [(k, v)].
Proof.
  induction d as [|[k0 v0] d IH]; simpl; intros Hk; [done|].
  apply not_elem_of_cons in Hk as [Hne Hk].
  destruct (String.eqb_spec k0 k) as [->|_]; [done|]. by rewrite IH.
Qed.

Lemma setitem_length (k : string) (v : value) (d : list (string * value)) :
  (length (setitem k v d) ≤ S (length d))%nat.
Proof.
  induction d as [|[k0 v0] d IH]; simpl; [lia|].
  destruct (String.eqb k0 k); simpl; lia.
Qed.

Lemma setitem_assoc (k : string) (v : value) (d : list (string * value))
    (c : string) :
  assoc c (setitem k v d) = if String.eqb c k then Some v else assoc c d.
Proof.
  induction d as [|[k0 v0] d IH]; simpl; [done|].
  destruct (String.eqb_spec k0 k) as [->|Hne]; simpl.
  - by destruct (String.eqb c k).
  - rewrite IH. destruct (String.eqb_spec c k0) as [->|_]; [|done].
    destruct (String.eqb_spec k0 k); [done|done].
Qed.

Lemma setitem_trimmed (k : string) (v : value) (d : list (string * value)) :
  strip k = k →
  Forall (fun kv => strip kv.1 = kv.1) d →
  Forall (fun kv => strip kv.1 = kv.1) (setitem k v d).
Proof.
  intros Hk. induction d as [|[k0 v0] d IH]; simpl; intros Hd.
  - by constructor.
  - apply Forall_cons in Hd as [H0 Hd].
    destruct (String.eqb k0 k); constructor; auto.
Qed.

Lemma clean_items_clean (data new_data : list (string * value)) :
  clean_dict new_data → clean_dict (clean_items data new_data).
Proof.
  revert new_data. unfold clean_items.
  induction data as [|[k v] data IH]; intros new_data [Ht Hn]; simpl; [done|].
  apply IH. split.
  - apply setitem_trimmed; [apply strip_idem|done].
  - by apply setitem_NoDup.
Qed.

Lemma clean_items_length (data new_data : list (string * value)) :
  (length (clean_items data new_data) ≤ length new_data + length data)%nat.
Proof.
  revert new_data. unfold clean_items.
  induction data as [|[k v] data IH]; intros new_data; simpl; [lia|].
  specialize (IH (setitem (strip k) v new_data)).
  pose proof (setitem_length (strip k) v new_data). lia.
Qed.

Lemma clean_items_elem (data new_data : list (string * value)) (c : string) :
  c ∈ (clean_items data new_data).*1 ↔
  c ∈ new_data.*1 ∨ ∃ k, k ∈ data.*1 ∧ strip k = c.
Proof.
  revert new_data. unfold clean_items.
  induction data as [|[k v] data IH]; intros new_data; simpl.
  - split; [by left|]. intros [?|(k & Hk & _)]; [done|].
    by apply elem_of_nil in Hk.
  - rewrite IH, setitem_elem. split.
    + intros [[->|?]|(k' & Hk' & <-)]; [right|by left|right].
      * exists k. split; [by left|done].
      * exists k'. split; [by right|done].
    + intros [?|(k' & Hk' & <-)]; [by left; right|].
      apply elem_of_cons in Hk' as [->|Hk']; [by left; left|].
      right. by exists k'.
Qed.

(** A dict with trimmed, distinct keys goes through the loop unchanged,
    order included. *)
Lemma clean_items_fixed (data new_data : list (string * value)) :
  Forall (fun kv => strip kv.1 = kv.1) data →
  NoDup (new_data ++ data).*1 →
  clean_items data new_data = new_data ++ data.
Proof.
  revert new_data. unfold clean_items.
  induction data as [|[k v] data IH]; intros new_data Ht Hn; simpl.
  - by rewrite app_nil_r.
  - apply Forall_cons in Ht as [Hk Ht]. simpl in Hk. rewrite Hk.
    rewrite fmap_app in Hn. apply NoDup_app in Hn as (Hn1 & Hn2 & Hn3).
    rewrite setitem_fresh.
    2:{ intros Hin. apply (Hn2 _ Hin). by left. }
    rewrite IH; [by rewrite <- app_assoc|done|].
    rewrite <- app_assoc. simpl. rewrite fmap_app. apply NoDup_app.
    split; [done|]. split; [done|done].
Qed.

(** X20.  The keys that [clean_state] writes are trimmed and pairwise
    distinct, they are exactly the trimmed keys of the file read, and
    there are at most as many entries as were read. *)
Theorem cleaned_keys_are_trimmed_and_distinct (data : list (string * value)) :
  let new_data := clean_items data [] in
  Forall (fun kv => strip kv.1 = kv.1) new_data ∧
  NoDup new_data.*1 ∧
  (∀ c, c ∈ new_data.*1 ↔ ∃ k, k ∈ data.*1 ∧ strip k = c) ∧
  (length new_data ≤ length data)%nat.
Proof.
  cbv zeta.
  destruct (clean_items_clean data []) as [Ht Hn].
  { split; [constructor|simpl; constructor]. }
  split; [done|]. split; [done|]. split.
  - intros c. rewrite clean_items_elem. split; [|by right].
    intros [Hc|?]; [|done]. by apply elem_of_nil in Hc.
  - apply (clean_items_length data []).
Qed.

(** X21.  When several keys of the file trim to the same text, the entry
    written under it has the value of the last of them, in the order of
    the file; a text that no key trims to is no key of the result. *)
Theorem cleaned_value_is_the_last_one (data : list (string * value))
    (c : string) :
  assoc c (clean_items data []) = snd <$> last_trimming_to c data.
Proof.
  unfold last_trimming_to.
  induction data as [|[k v] data IH] using rev_ind; [done|].
  unfold clean_items in *. rewrite foldl_snoc, reverse_snoc, setitem_assoc.
  simpl. destruct (String.eqb c (strip k)); [done|apply IH].
Qed.

(** X22.  Cleaning a cleaned file changes nothing: what [clean_state]
    writes, read back and cleaned again, is written back as it is, in
    the same order. *)
Theorem clean_state_is_idempotent (data out : value) :
  clean_state data = Ok out → clean_state out = Ok out.
Proof.
  destruct data as [| | | | |d]; simpl; try discriminate.
  intros [= <-]. simpl. do 2 f_equal.
  destruct (clean_items_clean d []) as [Ht Hn].
  { split; [constructor|simpl; constructor]. }
  by apply (clean_items_fixed (clean_items d []) []).
Qed.

(** X22 on a file with two keys that trim to the same text. *)
Lemma clean_state_is_idempotent_witness :
  clean_state (VDict [(" A1", VInt 1); ("B2", VInt 2); ("A1 ", VInt 3)])
  = Ok (VDict [("A1", VInt 3); ("B2", VInt 2)]) ∧
  clean_state (VDict [("A1", VInt 3); ("B2", VInt 2)])
  = Ok (VDict [("A1", VInt 3); ("B2", VInt 2)]).
Proof.
  split; [reflexivity|].
  apply (clean_state_is_idempotent
           (VDict [(" A1", VInt 1); ("B2", VInt 2); ("A1 ", VInt 3)])).
  reflexivity.
Defined.

(** Two keys that differ by a no-break space at the end are written as
    one entry, with the value of the later one. *)
Example clean_state_no_break_space :
  clean_state (VDict [("A1", VInt 1); (Scenario.A1_nbsp, VInt 2)])
  = Ok (VDict [("A1", VInt 2)]).
Proof. reflexivity. Qed.

End CleanStateFacts.

(** ** [escape_html] *)

Module EscapeFacts.
Import Py Loop Props.

Lemma append_assoc (s1 s2 s3 : string) :
  (s1 +:+ s2) +:+ s3 = s1 +:+ (s2 +:+ s3).
Proof.
  induction s1 as [|c s1 IH]; [done|].
  change (String c ((s1 +:+ s2) +:+ s3) = String c (s1 +:+ (s2 +:+ s3))).
  by rewrite IH.
Qed.

Lemma replace_char_app (c : ascii) (by_text s1 s2 : string) :
  replace_char c by_text (s1 +:+ s2)
  = replace_char c by_text s1 +:+ replace_char c by_text s2.
Proof.
  induction s1 as [|c' s1 IH]; simpl; [done|].
  destruct (Ascii.eqb c' c); simpl; rewrite IH; [|done].
  by rewrite append_assoc.
Qed.

Lemma escape_html_app (s1 s2 : string) :
  escape_html (s1 +:+ s2) = escape_html s1 +:+ escape_html s2.
Proof. unfold escape_html. by rewrite !replace_char_app. Qed.

Lemma escape_html_char (c : ascii) : escape_html (String c "") = entity c.
Proof.
  unfold entity.
  destruct (Ascii.eqb_spec c "&") as [->|Hamp]; [done|].
  destruct (Ascii.eqb_spec c "<") as [->|Hlt]; [done|].
  destruct (Ascii.eqb_spec c ">") as [->|Hgt]; [done|].
  unfold escape_html. simpl.
  apply Ascii.eqb_neq in Hamp, Hlt, Hgt.
  rewrite Hamp. simpl. rewrite Hlt. simpl. by rewrite Hgt.
Qed.

Lemma escape_html_once (s : string) : escape_html s = escape_once s.
Proof.
  induction s as [|c s IH]; [done|].
  change (String c s) with (String c "" +:+ s).
  by rewrite escape_html_app, escape_html_char, IH.
Qed.

Lemma occurs_app (c : ascii) (s1 s2 : string) :
  occurs c (s1 +:+ s2) = occurs c s1 || occurs c s2.
Proof.
  induction s1 as [|c' s1 IH]; simpl; [done|].
  by rewrite IH, orb_assoc.
Qed.

Lemma entity_plain (c : ascii) :
  occurs "<" (entity c) = false ∧ occurs ">" (entity c) = false.
Proof.
  unfold entity.
  destruct (Ascii.eqb_spec c "&") as [->|Hamp]; [done|].
  destruct (Ascii.eqb_spec c "<") as [->|Hlt]; [done|].
  destruct (Ascii.eqb_spec c ">") as [->|Hgt]; [done|].
  apply Ascii.eqb_neq in Hlt, Hgt. simpl. by rewrite Hlt, Hgt.
Qed.

(** X23.  The three replacements of [escape_html], made one after the
    other on the whole text, amount to one pass that writes each
    character's entity: the [&] of an entity written by the first
    replacement is not escaped again, and escaping a text in pieces is
    escaping it whole. *)
Theorem escape_html_is_one_pass (s1 s2 : string) :
  escape_html s1 = escape_once s1 ∧
  escape_html (s1 +:+ s2) = escape_html s1 +:+ escape_html s2.
Proof.
  split; [apply escape_html_once|apply escape_html_app].
Qed.

Lemma entity_entities (c : ascii) (s : string) :
  entities_only s = true → entities_only (entity c +:+ s) = true.
Proof.
  intros Hs. unfold entity.
  destruct (Ascii.eqb_spec c "&") as [->|Hamp]; [by destruct s|].
  destruct (Ascii.eqb_spec c "<") as [->|Hlt]; [by destruct s|].
  destruct (Ascii.eqb_spec c ">") as [->|Hgt]; [by destruct s|].
  apply Ascii.eqb_neq in Hamp. simpl. by rewrite Hamp.
Qed.

Lemma entity_inj (c1 c2 : ascii) (s1 s2 : string) :
  entity c1 +:+ s1 = entity c2 +:+ s2 → c1 = c2 ∧ s1 = s2.
Proof.
  unfold entity.
  destruct (Ascii.eqb_spec c1 "&") as [->|Hamp1];
    [|destruct (Ascii.eqb_spec c1 "<") as [->|Hlt1];
      [|destruct (Ascii.eqb_spec c1 ">") as [->|Hgt1]]];
  (destruct (Ascii.eqb_spec c2 "&") as [->|Hamp2];
    [|destruct (Ascii.eqb_spec c2 "<") as [->|Hlt2];
      [|destruct (Ascii.eqb_spec c2 ">") as [->|Hgt2]]]);
  simpl; intros [=]; subst; done.
Qed.

(** X24.  An escaped text holds no [<] and no [>], and each [&] in it
    starts one of the entities [&amp;], [&lt;], [&gt;], whatever the
    text. *)
Theorem escaped_text_has_no_markup (s : string) :
  occurs "<" (escape_html s) = false ∧
  occurs ">" (escape_html s) = false ∧
  entities_only (escape_html s) = true.
Proof.
  rewrite escape_html_once.
  induction s as [|c s (IH1 & IH2 & IH3)]; simpl; [done|].
  rewrite !occurs_app, IH1, IH2.
  destruct (entity_plain c) as [-> ->].
  split; [done|]. split; [done|]. by apply entity_entities.
Qed.

(** X25.  Escaping loses nothing: two texts with the same escaped text
    are the same text. *)
Theorem escape_html_is_injective (s1 s2 : string) :
  escape_html s1 = escape_html s2 → s1 = s2.
Proof.
  rewrite !escape_html_once. revert s2.
  induction s1 as [|c1 s1 IH]; intros [|c2 s2]; simpl; [done| | |].
  - unfold entity. intros H.
    destruct (Ascii.eqb c2 "&"); [discriminate|].
    destruct (Ascii.eqb c2 "<"); [discriminate|].
    destruct (Ascii.eqb c2 ">"); discriminate.
  - unfold entity. intros H.
    destruct (Ascii.eqb c1 "&"); [discriminate|].
    destruct (Ascii.eqb c1 "<"); [discriminate|].
    destruct (Ascii.eqb c1 ">"); discriminate.
  - intros H. apply entity_inj in H as [-> H]. by rewrite (IH _ H).
Qed.

(** X25 on a name with markup characters. *)
Lemma escape_html_is_injective_witness :
  escape_html "Tee <M> & Co" = "Tee &lt;M&gt; &amp; Co" ∧
  "Tee <M> & Co" = "Tee <M> & Co".
Proof.
  split; [reflexivity|].
  apply (escape_html_is_injective "Tee <M> & Co" "Tee <M> & Co").
  reflexivity.
Defined.

End EscapeFacts.

(** ** Alerts of one cycle *)

Module CycleFacts.
Import Py Parser Loop PyFacts LoopFacts Props.

Local Open Scope list_scope.

Lemma alerted_app (t1 t2 : list event) :
  alerted (t1 ++ t2) = alerted t1 ++ alerted t2.
Proof.
  induction t1 as [|[[c|] ? ? ? ?| |] t1 IH]; simpl; by rewrite ?IH.
Qed.

(** X26.  The verification phase alerts a product at most once, also
    when the alert could not be delivered and the product comes up again
    among the results, and never a product whose identifier was already
    processed in the cycle. *)
Theorem one_alert_per_product_per_cycle (rc : value → string)
    (telegram : list event → string → value → option string → bool)
    (all_found : gmap string Product) (futures : list future)
    (processed : gset string) (m : Monitor) :
  ∃ new,
    trace (monitor_of (verification_loop rc telegram all_found futures
                         processed m)) = trace m ++ new ∧
    NoDup (alerted new) ∧
    ∀ c, c ∈ alerted new → c ∉ processed.
Proof.
  revert processed m.
  induction futures as [|[raw v] futures IH]; intros processed m; simpl.
  - exists []. rewrite app_nil_r. split; [done|]. split; [constructor|].
    intros c Hc. by apply elem_of_nil in Hc.
  - case_decide as Hseen; [by apply IH|].
    destruct (lookup_product all_found raw) as [product|e]; simpl.
    2:{ exists []. rewrite app_nil_r. split; [done|]. split; [constructor|].
        intros c Hc. by apply elem_of_nil in Hc. }
    set (code := clean rc raw) in *.
    pose proof (StoreFacts.handle_result_cases rc telegram product code v m)
      as Hcases.
    cbv zeta in Hcases.
    set (m1 := handle_result rc telegram product code v m) in *.
    destruct (IH ({[code]} ∪ processed) m1) as (new' & Ht' & Hnd & Hfresh).
    assert (code ∉ alerted new') as Hcode.
    { intros Hin. apply (Hfresh _ Hin). apply elem_of_union. left.
      by apply elem_of_singleton. }
    assert (∀ c, c ∈ alerted new' → c ∉ processed) as Hfresh'.
    { intros c Hin Hc. apply (Hfresh _ Hin). apply elem_of_union. by right. }
    destruct Hcases as [Hm|[(_ & _ & _ & b & Ht & _)|(_ & _ & _ & Ht & _)]].
    + exists new'. rewrite Ht', Hm. done.
    + eexists (_ :: _ ++ new'). rewrite Ht', Ht, <- app_assoc.
      split; [done|]. simpl. rewrite alerted_app.
      assert (alerted (if b then [Saved (Some code) (stock_state m1)] else [])
              = []) as -> by (by destruct b).
      simpl. split; [by apply NoDup_cons|].
      intros c [->|Hin]%elem_of_cons; auto.
    + eexists (_ :: new'). rewrite Ht', Ht, <- app_assoc.
      split; [done|]. simpl. done.
Qed.

End CycleFacts.
